(** * The crawl engine of pyproxy-async ([app/ip_get.py])

    A shallow embedding of [IPGet]: the result sink [push_to_pool], the
    single-page fetch [crawl_single_page], the per-source page loop
    [crawl_site], the parse boundary [parse_site] and the polling loop
    [crawl_task], followed by the properties of the engine.

    The engine is a chain of awaited calls on one event loop, so it is
    modelled as a state-and-exception monad over a [World]: the shared pool,
    the engine's own attributes ([_test_model], [_configs], [_parsers]) and
    the trace of the calls made to collaborators (pool store, validation
    stage, proxy factory, HTTP session, logger, sleep). *)

From Stdlib Require Import ZArith List String Bool Lia.
From stdpp Require Import base option list gmap strings.

Import ListNotations.
Local Open Scope string_scope.
Local Open Scope list_scope.

(** ** Exceptions *)

(** Modelled from the spec: lib.exceptions is not among the sources. §7
    names the empty-response, the generic retryable and the retry-exhausted
    signals; they are taken as three classes of their own, next to every
    other [Exception]. Only instances of [Exception] are considered, so
    [except Exception] (lines 108 and 129) catches every inhabitant of
    [exn]. *)
#[warnings="-register-all"]
Inductive exn : Type :=
| EmptyResponseException (msg : string)
| RetryException (cause : option exn)      (* [raise RetryException() from e] *)
| MaxRetryException (msg : string)
| OtherError (cls msg : string).           (* any other [Exception] subclass *)

(** [str(e)] *)
Definition exn_str (e : exn) : string :=
  match e with
  | EmptyResponseException m => m
  | RetryException _ => ""
  | MaxRetryException m => m
  | OtherError _ m => m
  end.

Definition is_MaxRetryException (e : exn) : bool :=
  match e with MaxRetryException _ => true | _ => false end.

Inductive result (A : Type) : Type :=
| Ok (a : A)
| Raise (e : exn).
Arguments Ok {A} a.
Arguments Raise {A} e.

(** ** Data *)

(** [SiteResponse]: the body text and the URL it came from. *)
Record SiteResponse := { text : string; url : string }.

(** Modelled from the spec: lib.structs is not among the sources. §3: a
    candidate is convertible to its address string ([to_str]); anything
    else a parser yields is ignored by the engine. *)
Inductive item : Type :=
| SiteResponseData (to_str : string)
| NotData.

(** What [for item in result] sees: the items the result yields, and
    whether the iteration then stops or raises (a generator that fails half
    way, or a result that is not iterable at all). *)
Record iterable := { yields : list item; then_raises : option exn }.

(** A parser either raises when called or returns its result. *)
Inductive parser_outcome : Type :=
| ParserRaises (e : exn)
| ParserReturns (result : iterable).

Definition parser : Type := SiteResponse -> parser_outcome.

(** Modelled from the spec: lib.structs is not among the sources. §3
    lists the fields of a source configuration; these are the ones the
    engine reads. A [SiteData] is a mutable object: [oid] tells which one,
    and two values with the same [oid] stand for one object. *)
Record SiteData := {
  oid : nat;                             (* which object this is, [id(site)] *)
  key : string;
  enabled : bool;
  pages : list string;
  headers : list (string * string);
  use_proxy : bool;
  page_interval : Z;
}.

(** ** Calls to collaborators *)

Inductive level : Type := Debug | Info | Warn | Error.

Inductive log_arg : Type :=
| ArgInt (n : Z)
| ArgStr (s : string).

Inductive event : Type :=
| EvLog (lvl : level) (fmt : string) (args : list log_arg)
| EvRedisShare                                  (* Redis.share() *)
| EvZscore (member : string)                    (* redis.zscore(POOL, member) *)
| EvZadd (score : Z) (member : string)          (* redis.zadd(POOL, score, member) *)
| EvCheckerPush (ips : list string)             (* IPChecker.push_to_pool(ips) *)
| EvRandomIp (https : bool)                     (* IPFactory.get_random_ip(https) *)
| EvGet (page : string) (proxy : option string) (* session.get(page, proxy=proxy) *)
| EvSleep (secs : Z)                            (* asyncio.sleep(secs) *)
| EvVisit (page : string).                      (* the call of crawl_single_page on line 86 *)

(** ** The world *)

Record World := {
  pool : gmap string Z;                  (* the sorted set REDIS_KEY_IP_POOL *)
  trace : list event;                    (* oldest call first *)
  test_model : bool;                     (* IPGet._test_model *)
  configs : list (string * SiteData);    (* IPGet._configs, in dict order *)
  parsers : gmap string parser;          (* IPGet._parsers *)
}.

(** The constants of [Config] (app.main) and the behaviour of the
    collaborators that are not among the sources, as parameters: the pool
    store, the validation stage, the proxy factory (app.ip_factory) and the
    HTTP session. Every collaborator may raise, and what it does may depend
    on everything that happened so far. *)
Record Env := {
  DEFAULT_SCORE : Z;
  DEFAULT_CRAWL_SITES_INTERVAL : Z;
  APP_ENV_is_TEST : bool;                (* Config.APP_ENV == Config.AppEnvType.TEST *)
  MAX_RETRY : nat;                       (* attempt budget of [@retry()] *)
  redis_share_fault : World -> option exn;
  zscore_fault : string -> World -> option exn;
  zadd_fault : Z -> string -> World -> option exn;
  checker_fault : list string -> World -> option exn;
  get_random_ip : bool -> World -> result (option string);
  session_get : string -> option string -> World -> result string;
}.

(** ** The monad *)

Definition M (A : Type) : Type := World -> result A * World.

Definition ret {A} (a : A) : M A := fun w => (Ok a, w).

Definition raise {A} (e : exn) : M A := fun w => (Raise e, w).

Definition bind {A B} (m : M A) (k : A -> M B) : M B :=
  fun w =>
    match m w with
    | (Ok a, w1) => k a w1
    | (Raise e, w1) => (Raise e, w1)
    end.

Notation "x <- m ;; k" := (bind m (fun x => k))
  (at level 100, m at next level, k at level 200, right associativity).
Notation "'do' m ;; k" := (bind m (fun _ => k))
  (at level 100, m at next level, k at level 200, right associativity).

(** [try: m  except Exception as e: h e] *)
Definition try_except {A} (m : M A) (h : exn -> M A) : M A :=
  fun w =>
    match m w with
    | (Ok a, w1) => (Ok a, w1)
    | (Raise e, w1) => h e w1
    end.

(** [try: m  finally: f]: [f] runs however [m] ended; the outcome of [m]
    stands unless [f] raises itself. *)
Definition try_finally {A} (m : M A) (f : M unit) : M A :=
  fun w =>
    match m w with
    | (r, w1) =>
        match f w1 with
        | (Ok _, w2) => (r, w2)
        | (Raise e, w2) => (Raise e, w2)
        end
    end.

Definition set_trace (t : list event) (w : World) : World :=
  {| pool := pool w; trace := t; test_model := test_model w;
     configs := configs w; parsers := parsers w |}.

Definition set_pool (p : gmap string Z) (w : World) : World :=
  {| pool := p; trace := trace w; test_model := test_model w;
     configs := configs w; parsers := parsers w |}.

Definition set_test_model (b : bool) (w : World) : World :=
  {| pool := pool w; trace := trace w; test_model := b;
     configs := configs w; parsers := parsers w |}.

Definition record (e : event) (w : World) : World :=
  set_trace (trace w ++ [e]) w.

Definition emit (e : event) : M unit := fun w => (Ok tt, record e w).

(** [Logger.debug/info/warn/error(fmt % args)]: the format and its
    arguments are kept apart. *)
Definition Logger (lvl : level) (fmt : string) (args : list log_arg) : M unit :=
  emit (EvLog lvl fmt args).

(** [asyncio.sleep] *)
Definition sleep (secs : Z) : M unit := emit (EvSleep secs).

(** Reading an attribute of the engine. *)
Definition gets {A} (f : World -> A) : M A := fun w => (Ok (f w), w).

(** ** The retry decorator *)

(** Modelled from the spec: lib.func.retry is not among the sources. §4.3:
    invoke the wrapped operation; on a retryable failure invoke it again, up
    to a fixed number of attempts that includes the first; when the budget
    is spent raise the retry-exhausted signal; any other failure propagates
    at once; no delay between attempts. §7 classes the empty-response and
    the generic fetch failure as retryable. *)
Definition retryable (e : exn) : bool :=
  match e with
  | RetryException _ | EmptyResponseException _ => true
  | _ => false
  end.

Section RetryPolicy.

Context {St A : Type}.

Fixpoint retry (budget : nat) (op : St -> result A * St) (s : St) : result A * St :=
  match budget with
  | O => (Raise (MaxRetryException ""), s)
  | S rest =>
      match op s with
      | (Ok a, s1) => (Ok a, s1)
      | (Raise e, s1) => if retryable e then retry rest op s1 else (Raise e, s1)
      end
  end.


End RetryPolicy.

Section Engine.

Variable env : Env.

(** ** The pool store and the validation stage *)

(** Modelled from the spec: lib.redis_lib is not among the sources. §6 gives
    the pool store as [scoreOf(poolKey, address) -> score | absent] and
    [insert(poolKey, address, defaultScore)]; a call that raises changes
    nothing. *)
Definition redis_share : M unit :=
  fun w =>
    match redis_share_fault env w with
    | Some e => (Raise e, record EvRedisShare w)
    | None => (Ok tt, record EvRedisShare w)
    end.

(** Modelled from the spec: [scoreOf] of §6, [redis.zscore] on line 66. *)
Definition zscore (member : string) : M (option Z) :=
  fun w =>
    match zscore_fault env member w with
    | Some e => (Raise e, record (EvZscore member) w)
    | None => (Ok (pool w !! member), record (EvZscore member) w)
    end.

(** Modelled from the spec: [insert] of §6, [redis.zadd] on line 69. *)
Definition zadd (score : Z) (member : string) : M unit :=
  fun w =>
    match zadd_fault env score member w with
    | Some e => (Raise e, record (EvZadd score member) w)
    | None =>
        (Ok tt, record (EvZadd score member) (set_pool (<[member := score]> (pool w)) w))
    end.

(** Modelled from the spec: app.ip_checker is not among the sources. §6:
    [submit(addresses) -> void]. *)
Definition IPChecker_push_to_pool (ips : list string) : M unit :=
  fun w =>
    match checker_fault env ips w with
    | Some e => (Raise e, record (EvCheckerPush ips) w)
    | None => (Ok tt, record (EvCheckerPush ips) w)
    end.

(** ** [push_to_pool] (lines 58-74) *)

(** The argument: a list, or anything else, which is wrapped (lines 61-62). *)
Inductive ips_arg : Type :=
| NotAList (ip : string)
| AList (ips : list string).

Definition as_list (a : ips_arg) : list string :=
  match a with
  | NotAList ip => [ip]
  | AList ips => ips
  end.

(** Lines 65-70, with [needs_ip] as it stands when the loop reaches [ips]. *)
Fixpoint push_loop (ips : list string) (needs_ip : list string) : M (list string) :=
  match ips with
  | [] => ret needs_ip
  | ip :: rest =>
      exists_ <- zscore ip ;;
      match exists_ with
      | Some _ => push_loop rest needs_ip
      | None =>
          do zadd (DEFAULT_SCORE env) ip ;;
          push_loop rest (needs_ip ++ [ip])
      end
  end.

Definition push_to_pool (arg : ips_arg) : M nat :=
  let ips := as_list arg in
  do redis_share ;;
  needs_ip <- push_loop ips [] ;;
  do match needs_ip with
     | [] => ret tt
     | _ :: _ => IPChecker_push_to_pool needs_ip
     end ;;
  do Logger Info "[get] send %d ip to ip pools" [ArgInt (Z.of_nat (length needs_ip))] ;;
  ret (length ips).

(** ** [save_parse_result] and [show_result] (lines 132-147) *)

(** The addresses of the items that are [SiteResponseData]. *)
Fixpoint candidates (items : list item) : list string :=
  match items with
  | [] => []
  | SiteResponseData s :: rest => s :: candidates rest
  | NotData :: rest => candidates rest
  end.

(** How the [for] loop over [result] ends. *)
Definition iter_end (result : iterable) : M unit :=
  match then_raises result with
  | Some e => raise e
  | None => ret tt
  end.

Definition save_parse_result (result : iterable) : M unit :=
  let ips := candidates (yields result) in
  do iter_end result ;;
  match ips with
  | [] => ret tt
  | _ :: _ =>
      do Logger Info "[get] Get %d new ip" [ArgInt (Z.of_nat (length ips))] ;;
      _ <- push_to_pool (AList ips) ;;
      ret tt
  end.

Fixpoint show_items (items : list item) : M unit :=
  match items with
  | [] => ret tt
  | SiteResponseData s :: rest =>
      do Logger Info "[get] Get ip: %s" [ArgStr s] ;;
      show_items rest
  | NotData :: rest => show_items rest
  end.

Definition show_result (resp : SiteResponse) (result : iterable) : M unit :=
  do Logger Info "[get] Url: %s" [ArgStr (url resp)] ;;
  do show_items (yields result) ;;
  iter_end result.

(** ** [parse_site] (lines 119-130) *)

Definition call_parser (p : parser) (resp : SiteResponse) : M iterable :=
  match p resp with
  | ParserRaises e => raise e
  | ParserReturns result => ret result
  end.

Definition parse_site (site : SiteData) (resp : SiteResponse) : M unit :=
  bound <- gets (fun w => parsers w !! key site) ;;
  match bound with
  | None => ret tt
  | Some p =>
      try_except
        (result <- call_parser p resp ;;
         test <- gets test_model ;;
         if negb test then save_parse_result result
         else show_result resp result)
        (fun e => Logger Error "[get] Parse error, message: %s" [ArgStr (exn_str e)])
  end.

(** ** [crawl_single_page] (lines 95-110), the body under [@retry()]

    The session (merged headers, request timeout) is part of what
    [session_get] stands for. *)

(** [IPFactory.get_random_ip(https)] and [to_http()] of what it returns;
    [None] when it returns nothing. *)
Definition IPFactory_get_random_ip (https : bool) : M (option string) :=
  fun w => (get_random_ip env https w, record (EvRandomIp https) w).

(** [session.get(page, proxy=proxy)] and [resp.text()] *)
Definition get_text (page : string) (proxy : option string) : M string :=
  fun w => (session_get env page proxy w, record (EvGet page proxy) w).

Definition crawl_single_page (page : string) (site : SiteData) : M unit :=
  proxy <- (if use_proxy site
            then IPFactory_get_random_ip (String.prefix "https" page)
            else ret None) ;;
  try_except
    (text <- get_text page proxy ;;
     site_resp <- (if String.eqb text ""
                   then raise (EmptyResponseException "empty text")
                   else ret {| text := text; url := page |}) ;;
     parse_site site site_resp)
    (fun e =>
       do Logger Error "[get] Get page %s error, message: %s"
            [ArgStr page; ArgStr (exn_str e)] ;;
       raise (RetryException (Some e))).

(** [self.crawl_single_page], as callers see it. *)
Definition crawl_single_page_retry (page : string) (site : SiteData) : M unit :=
  retry (MAX_RETRY env) (crawl_single_page page site).

(** ** [crawl_site] (lines 76-92)

    Lines 77-82 (user agent, merged headers, session with its timeout) only
    shape the requests, which [session_get] stands for. *)

(** [site.pages if page_limit == 0 else site.pages[0:page_limit]]; a
    negative stop counts from the end. *)
Definition page_slice (pgs : list string) (page_limit : Z) : list string :=
  if (page_limit =? 0)%Z then pgs
  else if (0 <? page_limit)%Z then take (Z.to_nat page_limit) pgs
  else take (Z.to_nat (Z.of_nat (length pgs) + page_limit)) pgs.

(** Lines 91-92. *)
Definition pacing (site : SiteData) : M unit :=
  if (page_interval site =? 0)%Z then ret tt else sleep (page_interval site).

(** One turn of the loop, lines 85-92. *)
Definition crawl_page (site : SiteData) (page : string) : M unit :=
  try_finally
    (try_except
       (do emit (EvVisit page) ;;
        crawl_single_page_retry page site)
       (fun e =>
          if is_MaxRetryException e
          then Logger Warn "[get] Max retry skip, message: %s" [ArgStr (exn_str e)]
          else raise e))
    (pacing site).

Fixpoint crawl_pages (site : SiteData) (pgs : list string) : M unit :=
  match pgs with
  | [] => ret tt
  | page :: rest =>
      do crawl_page site page ;;
      crawl_pages site rest
  end.

Definition crawl_site (site : SiteData) (page_limit : Z) : M unit :=
  crawl_pages site (page_slice (pages site) page_limit).

(** ** [start_crawl], [crawl_task], [run] (lines 39-56) *)

Fixpoint crawl_sites (items : list (string * SiteData)) : M unit :=
  match items with
  | [] => ret tt
  | (_, site) :: rest =>
      do (if enabled site then crawl_site site 0 else ret tt) ;;
      crawl_sites rest
  end.

Definition start_crawl : M unit :=
  items <- gets configs ;;
  crawl_sites items.

Inductive loop_state : Type := Stopped | Running.

(** The [while True] loop, followed for at most [passes] passes. *)
Fixpoint crawl_task (passes : nat) : M loop_state :=
  match passes with
  | O => ret Running
  | S more =>
      do Logger Debug "[get] crawl task loop" [] ;;
      do start_crawl ;;
      if APP_ENV_is_TEST env then ret Stopped
      else
        do sleep (DEFAULT_CRAWL_SITES_INTERVAL env) ;;
        crawl_task more
  end.

(** ** [test_crawl], [config], [parse] (lines 112-117, 149-170) *)

Fixpoint dict_get {V} (k : string) (d : list (string * V)) : option V :=
  match d with
  | [] => None
  | (k', v) :: rest => if String.eqb k k' then Some v else dict_get k rest
  end.

(** [d[k] = v]: a key already there keeps its place. *)
Fixpoint dict_set {V} (k : string) (v : V) (d : list (string * V)) : list (string * V) :=
  match d with
  | [] => [(k, v)]
  | (k', v') :: rest =>
      if String.eqb k k' then (k, v) :: rest else (k', v') :: dict_set k v rest
  end.

(** [crawl_site(None)] fails on [site.headers] (line 80). *)
Definition test_crawl (k : string) (page_limit : Z) : M unit :=
  fun w =>
    let w1 := set_test_model true w in
    match dict_get k (configs w1) with
    | Some site => crawl_site site page_limit w1
    | None =>
        (Raise (OtherError "AttributeError"
                  "'NoneType' object has no attribute 'headers'"), w1)
    end.

(** [res.key = name]: the same object, with another key. *)
Definition with_key (name : string) (s : SiteData) : SiteData :=
  {| oid := oid s; key := name; enabled := enabled s; pages := pages s;
     headers := headers s; use_proxy := use_proxy s;
     page_interval := page_interval s |}.

(** What an assignment to a field of the object [s'] does to a registry:
    every entry that holds this very object holds it as it now is. *)
Definition reassigned (s' : SiteData) (d : list (string * SiteData))
  : list (string * SiteData) :=
  map (fun kv => if Nat.eqb (oid (snd kv)) (oid s') then (fst kv, s') else kv) d.

(** [@IPGet.config(name)]: [res] is what [f()] returned when that is a
    [SiteData]. Line 156 assigns to the object itself, so an entry that
    already holds it, under whatever name, sees the new key; line 157 then
    binds [name] to it. *)
Definition config (name : string) (res : option SiteData) : M unit :=
  fun w =>
    match res with
    | None => (Raise (OtherError "AssertionError" "Config must be instance of SiteData"), w)
    | Some s =>
        (Ok tt, {| pool := pool w; trace := trace w; test_model := test_model w;
                   configs := dict_set name (with_key name s)
                                (reassigned (with_key name s) (configs w));
                   parsers := parsers w |})
    end.

(** [@IPGet.parse(name)] *)
Definition parse (name : string) (f : parser) : M unit :=
  fun w =>
    (Ok tt, {| pool := pool w; trace := trace w; test_model := test_model w;
               configs := configs w; parsers := <[name := f]> (parsers w) |}).

End Engine.

(** ** Reading a trace *)

(** The insertions made into the pool. *)
Definition zadds (t : list event) : list (Z * string) :=
  omap (fun e => match e with EvZadd s m => Some (s, m) | _ => None end) t.

(** The batches handed to the validation stage. *)
Definition pushes (t : list event) : list (list string) :=
  omap (fun e => match e with EvCheckerPush ips => Some ips | _ => None end) t.

(** The sleeps. *)
Definition sleeps (t : list event) : list Z :=
  omap (fun e => match e with EvSleep s => Some s | _ => None end) t.

(** The counts logged by line 73. *)
Definition sent_counts (t : list event) : list Z :=
  omap (fun e => match e with
                 | EvLog Info "[get] send %d ip to ip pools" [ArgInt n] => Some n
                 | _ => None
                 end) t.

(** The engine's own attributes are the same in both worlds. *)
Definition same_attrs (w w' : World) : Prop :=
  test_model w' = test_model w /\ configs w' = configs w /\ parsers w' = parsers w.

(** [w'] is [w] after the calls [t]. *)
Definition after (w : World) (t : list event) (w' : World) : Prop :=
  trace w' = trace w ++ t /\ same_attrs w w'.

(** The pool store, the validation stage: no call ever raises. *)
Definition reliable_store (env : Env) : Prop :=
  (forall w, redis_share_fault env w = None) /\
  (forall a w, zscore_fault env a w = None) /\
  (forall s a w, zadd_fault env s a w = None) /\
  (forall l w, checker_fault env l w = None).

(** ** Concrete collaborators *)

(** Nothing ever fails; every page has the same body; no proxy on offer. *)
Definition quiet_env : Env :=
  {| DEFAULT_SCORE := 10;
     DEFAULT_CRAWL_SITES_INTERVAL := 60;
     APP_ENV_is_TEST := true;
     MAX_RETRY := 3;
     redis_share_fault := fun _ => None;
     zscore_fault := fun _ _ => None;
     zadd_fault := fun _ _ _ => None;
     checker_fault := fun _ _ => None;
     get_random_ip := fun _ _ => Ok None;
     session_get := fun _ _ _ => Ok "<html>1.2.3.4:8080</html>" |}.

Definition empty_world : World :=
  {| pool := ∅; trace := []; test_model := false; configs := []; parsers := ∅ |}.

(** A pool that already holds one address. *)
Definition seen_world : World :=
  set_pool (<["1.2.3.4:8080" := 7%Z]> ∅) empty_world.



(** ** Relating the worlds before and after *)

(** [m] takes every world to one related to it by [R], however it ends. *)
Definition respects {A} (R : World -> World -> Prop) (m : M A) : Prop :=
  forall w, R w (snd (m w)).

(** Calls that neither touch the pool nor forward, sleep or start a visit. *)
Definition quiet_event (e : event) : bool :=
  match e with
  | EvLog _ _ _ | EvRedisShare | EvZscore _ | EvRandomIp _ | EvGet _ _ => true
  | EvZadd _ _ | EvCheckerPush _ | EvSleep _ | EvVisit _ => false
  end.

(** [w'] is [w] with more calls on its trace, all of them [allowed]; the
    pool may differ. *)
Definition grows (allowed : event -> bool) (w w' : World) : Prop :=
  same_attrs w w' /\
  exists t, trace w' = trace w ++ t /\ forallb allowed t = true.

Definition is_pacing (e : event) : bool :=
  match e with
  | EvVisit _ | EvSleep _ => true
  | _ => false
  end.

(** The page visits and the sleeps of a trace, in order. *)
Definition pace_view (t : list event) : list event := filter (fun e => is_pacing e = true) t.

(** The pages visited. *)
Definition visits (t : list event) : list string :=
  omap (fun e => match e with EvVisit p => Some p | _ => None end) t.

(** The fetch attempts. *)
Definition gets_of (t : list event) : list (string * option string) :=
  omap (fun e => match e with EvGet p proxy => Some (p, proxy) | _ => None end) t.

(** The attributes and the pool as they were, and no insertion or
    forwarding call added. *)
Definition no_forwarding (w w' : World) : Prop :=
  same_attrs w w' /\
  pool w' = pool w /\
  zadds (trace w') = zadds (trace w) /\
  pushes (trace w') = pushes (trace w).

(** [no_forwarding], from the worlds in which [P] holds. *)
Definition quiet_under (P : World -> Prop) (w w' : World) : Prop :=
  P w -> no_forwarding w w'.

Definition in_test_mode (w : World) : Prop := test_model w = true.

(** The parser raises on this response: when called, or while its result
    is iterated. *)
Definition parser_fails (p : parser) (resp : SiteResponse) (e : exn) : Prop :=
  p resp = ParserRaises e \/
  exists items, p resp = ParserReturns {| yields := items; then_raises := Some e |}.

(** Every bound parser raises on every response. *)
Definition broken_parsers (w : World) : Prop :=
  forall k p resp, parsers w !! k = Some p -> exists e, parser_fails p resp e.

(** The proxy factory answers every call. *)
Definition proxy_never_raises (env : Env) : Prop :=
  forall https w, exists o, get_random_ip env https w = Ok o.

(** The pages a pass visits when nothing aborts it. *)
Definition pages_of_pass (w : World) : list string :=
  flat_map (fun kv => if enabled (snd kv) then page_slice (pages (snd kv)) 0 else [])
    (configs w).

Definition is_log (e : event) : bool :=
  match e with EvLog _ _ _ => true | _ => false end.

(** Lines 109 and 130. *)
Definition get_error_log (page : string) (e : exn) : event :=
  EvLog Error "[get] Get page %s error, message: %s" [ArgStr page; ArgStr (exn_str e)].

Definition parse_error_log (e : exn) : event :=
  EvLog Error "[get] Parse error, message: %s" [ArgStr (exn_str e)].

(** ** The operations of the engine, as a caller may invoke them *)

(** [run]: [asyncio.wait] keeps the exception of the task to itself. *)
Definition run (env : Env) (passes : nat) : M unit :=
  try_except (_ <- crawl_task env passes ;; ret tt) (fun _ => ret tt).

Inductive call : Type :=
| CallRun (passes : nat)
| CallCrawlTask (passes : nat)
| CallStartCrawl
| CallPushToPool (arg : ips_arg)
| CallCrawlSite (site : SiteData) (page_limit : Z)
| CallCrawlSinglePage (page : string) (site : SiteData)
| CallTestCrawl (k : string) (page_limit : Z)
| CallParseSite (site : SiteData) (resp : SiteResponse)
| CallSaveParseResult (result : iterable)
| CallShowResult (resp : SiteResponse) (result : iterable)
| CallConfig (name : string) (res : option SiteData)
| CallParse (name : string) (f : parser).

(** The world a call leaves behind. *)
Definition perform (env : Env) (c : call) (w : World) : World :=
  match c with
  | CallRun passes => snd (run env passes w)
  | CallCrawlTask passes => snd (crawl_task env passes w)
  | CallStartCrawl => snd (start_crawl env w)
  | CallPushToPool arg => snd (push_to_pool env arg w)
  | CallCrawlSite site page_limit => snd (crawl_site env site page_limit w)
  | CallCrawlSinglePage page site => snd (crawl_single_page_retry env page site w)
  | CallTestCrawl k page_limit => snd (test_crawl env k page_limit w)
  | CallParseSite site resp => snd (parse_site env site resp w)
  | CallSaveParseResult result => snd (save_parse_result env result w)
  | CallShowResult resp result => snd (show_result resp result w)
  | CallConfig name res => snd (config name res w)
  | CallParse name f => snd (parse name f w)
  end.

(** A trace made of page turns, one per page of the list: the visit starts,
    calls that are neither visits nor sleeps follow, then one sleep of [i]. *)
Inductive page_turns (i : Z) : list string -> list event -> Prop :=
| turns_nil : page_turns i [] []
| turns_cons (p : string) (ps : list string) (body t : list event) :
    pace_view body = [] ->
    page_turns i ps t ->
    page_turns i (p :: ps) (EvVisit p :: body ++ EvSleep i :: t).

(** ** Concrete sources, parsers and failures *)

Definition site_s1 : SiteData :=
  {| oid := 1; key := "s1"; enabled := true;
     pages := ["http://s1/p1"; "http://s1/p2"];
     headers := []; use_proxy := false; page_interval := 2 |}.

Definition site_s2 : SiteData :=
  {| oid := 2; key := "s2"; enabled := true;
     pages := ["https://s2/p1"];
     headers := []; use_proxy := true; page_interval := 0 |}.

Definition two_ip_parser : parser :=
  fun _ => ParserReturns
             {| yields := [SiteResponseData "1.2.3.4:8080"; NotData;
                           SiteResponseData "5.6.7.8:3128"];
                then_raises := None |}.

Definition raising_parser : parser :=
  fun _ => ParserRaises (OtherError "ValueError" "bad html").

(** A generator that yields one address and then fails. *)
Definition half_parser : parser :=
  fun _ => ParserReturns
             {| yields := [SiteResponseData "1.2.3.4:8080"];
                then_raises := Some (OtherError "IndexError" "list index out of range") |}.

Definition world_s1 : World :=
  {| pool := ∅; trace := []; test_model := false;
     configs := [("s1", site_s1); ("s2", site_s2)];
     parsers := <["s1" := two_ip_parser]> ∅ |}.

Definition world_raising : World :=
  {| pool := ∅; trace := []; test_model := false;
     configs := [("s1", site_s1); ("s2", site_s2)];
     parsers := <["s1" := raising_parser]> ∅ |}.

Definition page_p1 : SiteResponse :=
  {| text := "<html>1.2.3.4:8080</html>"; url := "http://s1/p1" |}.

(** Every fetch times out. *)
Definition offline_env : Env :=
  {| DEFAULT_SCORE := 10;
     DEFAULT_CRAWL_SITES_INTERVAL := 60;
     APP_ENV_is_TEST := true;
     MAX_RETRY := 3;
     redis_share_fault := fun _ => None;
     zscore_fault := fun _ _ => None;
     zadd_fault := fun _ _ _ => None;
     checker_fault := fun _ _ => None;
     get_random_ip := fun _ _ => Ok None;
     session_get := fun _ _ _ => Raise (OtherError "TimeoutError" "") |}.

(** The proxy factory cannot be reached. *)
Definition proxy_down_env : Env :=
  {| DEFAULT_SCORE := 10;
     DEFAULT_CRAWL_SITES_INTERVAL := 60;
     APP_ENV_is_TEST := true;
     MAX_RETRY := 3;
     redis_share_fault := fun _ => None;
     zscore_fault := fun _ _ => None;
     zadd_fault := fun _ _ _ => None;
     checker_fault := fun _ _ => None;
     get_random_ip := fun _ _ => Raise (OtherError "ConnectionError" "proxy pool down");
     session_get := fun _ _ _ => Ok "<html>1.2.3.4:8080</html>" |}.


(** The second page of [site_s1] times out on every attempt. *)
Definition flaky_env : Env :=
  {| DEFAULT_SCORE := 10;
     DEFAULT_CRAWL_SITES_INTERVAL := 60;
     APP_ENV_is_TEST := true;
     MAX_RETRY := 3;
     redis_share_fault := fun _ => None;
     zscore_fault := fun _ _ => None;
     zadd_fault := fun _ _ _ => None;
     checker_fault := fun _ _ => None;
     get_random_ip := fun _ _ => Ok None;
     session_get := fun page _ _ =>
       if String.eqb page "http://s1/p2"
       then Raise (OtherError "TimeoutError" "")
       else Ok "<html>1.2.3.4:8080</html>" |}.

Definition one_ip_parser : parser :=
  fun _ => ParserReturns
             {| yields := [SiteResponseData "1.2.3.4:8080"]; then_raises := None |}.

(** Two sources, the first without pacing. *)
Definition site_a : SiteData :=
  {| oid := 3; key := "S1"; enabled := true;
     pages := ["http://s1/p1"; "http://s1/p2"];
     headers := []; use_proxy := false; page_interval := 0 |}.

Definition site_b : SiteData :=
  {| oid := 4; key := "S2"; enabled := true;
     pages := ["http://s2/p1"];
     headers := []; use_proxy := false; page_interval := 0 |}.

Definition world_ab : World :=
  {| pool := ∅; trace := []; test_model := false;
     configs := [("S1", site_a); ("S2", site_b)];
     parsers := <["S1" := one_ip_parser]> ∅ |}.

(** ** More readers of a trace *)

(** The requests made to the proxy factory. *)
Definition proxies_of (t : list event) : list bool :=
  omap (fun e => match e with EvRandomIp b => Some b | _ => None end) t.

(** The calls [parse_site] can make: to the logger, the pool store and the
    validation stage. *)
Definition sink_event (e : event) : bool :=
  match e with
  | EvLog _ _ _ | EvRedisShare | EvZscore _ | EvZadd _ _ | EvCheckerPush _ => true
  | EvRandomIp _ | EvGet _ _ | EvSleep _ | EvVisit _ => false
  end.

(** A source with nothing to visit in the test world. *)
Definition site_off : SiteData :=
  {| oid := 5; key := "s3"; enabled := false;
     pages := ["http://s3/p1"; "http://s3/p2"; "http://s3/p3"; "http://s3/p4"];
     headers := []; use_proxy := false; page_interval := 0 |}.

Definition world_off : World :=
  {| pool := ∅; trace := []; test_model := false;
     configs := [("s3", site_off)];
     parsers := <["s3" := two_ip_parser]> ∅ |}.

(** What a crawl of the pages [pgs] may call: the proxy factory only when
    the source uses a proxy, a GET only for one of the pages, and through a
    proxy only when the source uses one. *)
Definition fetch_ok (use : bool) (pgs : list string) (e : event) : bool :=
  match e with
  | EvRandomIp _ => use
  | EvGet p proxy =>
      (use || match proxy with None => true | Some _ => false end)
      && bool_decide (p ∈ pgs)
  | _ => true
  end.

Definition is_sleep (e : event) : bool :=
  match e with EvSleep _ => true | _ => false end.

(** A source that uses a proxy, in the test world of the others. *)
Definition world_s2 : World :=
  {| pool := ∅; trace := []; test_model := false;
     configs := [("s2", site_s2)];
     parsers := <["s2" := one_ip_parser]> ∅ |}.

(** What one call of the body of [crawl_single_page] may call. *)
Definition attempt_ok (use : bool) (page : string) (e : event) : bool :=
  match e with
  | EvRandomIp _ => use
  | EvGet p proxy =>
      (use || match proxy with None => true | Some _ => false end)
      && bool_decide (p = page)
  | EvSleep _ | EvVisit _ => false
  | _ => true
  end.

(** The pool of [w'] holds what the pool of [w] held, with the same scores,
    and whatever it holds besides has the score [d]. *)
Definition pool_extends (d : Z) (w w' : World) : Prop :=
  forall a,
    match pool w !! a with
    | Some s => pool w' !! a = Some s
    | None => pool w' !! a = None \/ pool w' !! a = Some d
    end.

(** Lines 143 and 147. *)
Definition url_log (resp : SiteResponse) : event :=
  EvLog Info "[get] Url: %s" [ArgStr (url resp)].

Definition ip_log (a : string) : event :=
  EvLog Info "[get] Get ip: %s" [ArgStr a].

Definition world_test : World :=
  {| pool := ∅; trace := []; test_model := true;
     configs := [("s1", site_s1)];
     parsers := <["s1" := half_parser]> ∅ |}.

(** The sleeps of [secs] seconds. *)
Definition sleeps_of (secs : Z) (t : list event) : nat :=
  length (filter (fun s => s = secs) (sleeps t)).

(** Continuous operation, with collaborators that never fail. *)
Definition live_env : Env :=
  {| DEFAULT_SCORE := 10;
     DEFAULT_CRAWL_SITES_INTERVAL := 60;
     APP_ENV_is_TEST := false;
     MAX_RETRY := 3;
     redis_share_fault := fun _ => None;
     zscore_fault := fun _ _ => None;
     zadd_fault := fun _ _ _ => None;
     checker_fault := fun _ _ => None;
     get_random_ip := fun _ _ => Ok None;
     session_get := fun _ _ _ => Ok "<html>1.2.3.4:8080</html>" |}.


(** ** The request headers (lines 77-80, 172-175) *)

(** ['...Chrome/%d.0.3770.80 Safari/537.36' % n], with [n] what
    [random.randint(70, 76)] drew; the draw has two digits. *)
Definition two_digits (n : nat) : string :=
  String (Ascii.ascii_of_nat (48 + n / 10))
    (String (Ascii.ascii_of_nat (48 + n mod 10)) EmptyString).

Definition get_user_agent (n : nat) : string :=
  String.append
    "Mozilla/5.0 (Macintosh; Intel Mac OS X 10_14_5) AppleWebKit/537.36 (KHTML, like Gecko) Chrome/"
    (String.append (two_digits n) ".0.3770.80 Safari/537.36").

(** [headers.update(other)] *)
Definition dict_update {V} (other d : list (string * V)) : list (string * V) :=
  fold_left (fun acc kv => dict_set (fst kv) (snd kv) acc) other d.

(** [headers = {'User-Agent': ...}; headers.update(site.headers)] *)
Definition request_headers (n : nat) (site : SiteData) : list (string * string) :=
  dict_update (headers site) [("User-Agent", get_user_agent n)].

Definition site_ua : SiteData :=
  {| oid := 6; key := "s4"; enabled := true; pages := [];
     headers := [("Referer", "http://s4/"); ("User-Agent", "curl/7.64")];
     use_proxy := false; page_interval := 0 |}.


(** ** One turn of the polling loop *)

(** Line 46. *)
Definition loop_log : event := EvLog Debug "[get] crawl task loop" [].

(** Lines 46-50 in continuous operation, for a pass that returns: the log,
    the pass, the sleep. *)
Definition polling_cycle (env : Env) (w : World) : World :=
  record (EvSleep (DEFAULT_CRAWL_SITES_INTERVAL env))
    (snd (start_crawl env (record loop_log w))).

(** ** Traces split *)

Lemma zadds_app (t1 t2 : list event) : zadds (t1 ++ t2) = zadds t1 ++ zadds t2.
Proof. apply omap_app. Qed.

Lemma pushes_app (t1 t2 : list event) : pushes (t1 ++ t2) = pushes t1 ++ pushes t2.
Proof. apply omap_app. Qed.

Lemma visits_app (t1 t2 : list event) : visits (t1 ++ t2) = visits t1 ++ visits t2.
Proof. apply omap_app. Qed.

Lemma sleeps_app (t1 t2 : list event) : sleeps (t1 ++ t2) = sleeps t1 ++ sleeps t2.
Proof. apply omap_app. Qed.

(** ** Frame rules

    What is needed of a relation [R] for the operations of the engine to
    respect it. *)

Section Frame.

Variable env : Env.
Variable R : World -> World -> Prop.

Hypothesis R_refl : forall w, R w w.
Hypothesis R_trans : forall w1 w2 w3, R w1 w2 -> R w2 w3 -> R w1 w3.

Lemma respects_ret {A} (a : A) : respects R (ret a).
Proof. intros w. apply R_refl. Qed.

Lemma respects_raise {A} (e : exn) : respects R (@raise A e).
Proof. intros w. apply R_refl. Qed.

Lemma respects_gets {A} (f : World -> A) : respects R (gets f).
Proof. intros w. apply R_refl. Qed.

Lemma respects_bind {A B} (m : M A) (k : A -> M B) :
  respects R m -> (forall a, respects R (k a)) -> respects R (bind m k).
Proof.
  intros Hm Hk w. unfold bind. specialize (Hm w).
  destruct (m w) as [[a|e] w1]; cbn [snd] in *.
  - exact (R_trans _ _ _ Hm (Hk a w1)).
  - exact Hm.
Qed.

Lemma respects_try_except {A} (m : M A) (h : exn -> M A) :
  respects R m -> (forall e, respects R (h e)) -> respects R (try_except m h).
Proof.
  intros Hm Hh w. unfold try_except. specialize (Hm w).
  destruct (m w) as [[a|e] w1]; cbn [snd] in *.
  - exact Hm.
  - exact (R_trans _ _ _ Hm (Hh e w1)).
Qed.

Lemma respects_try_finally {A} (m : M A) (f : M unit) :
  respects R m -> respects R f -> respects R (try_finally m f).
Proof.
  intros Hm Hf w. unfold try_finally. specialize (Hm w).
  destruct (m w) as [r w1]. specialize (Hf w1).
  destruct (f w1) as [[u|e] w2]; cbn [snd] in *; exact (R_trans _ _ _ Hm Hf).
Qed.

Lemma respects_retry {A} (budget : nat) (op : M A) :
  respects R op -> respects R (retry budget op).
Proof.
  intros Hop. induction budget as [|b IH]; intros w; cbn [retry].
  - apply R_refl.
  - specialize (Hop w). destruct (op w) as [[a|e] w1]; cbn [snd] in *.
    + exact Hop.
    + destruct (retryable e); [|exact Hop].
      exact (R_trans _ _ _ Hop (IH w1)).
Qed.

(** *** The sink *)

Section Sink.

Hypothesis R_quiet : forall e w, quiet_event e = true -> R w (record e w).
Hypothesis R_zadd : forall s m w, R w (record (EvZadd s m) w).
Hypothesis R_set_pool : forall p w, R w (set_pool p w).
Hypothesis R_push : forall ips w, R w (record (EvCheckerPush ips) w).

Lemma respects_Logger lvl fmt args : respects R (Logger lvl fmt args).
Proof. intros w. now apply R_quiet. Qed.

Lemma respects_zscore (a : string) : respects R (zscore env a).
Proof.
  intros w. unfold zscore.
  destruct (zscore_fault env a w); cbn [snd]; now apply R_quiet.
Qed.

Lemma respects_zadd (s : Z) (a : string) : respects R (zadd env s a).
Proof.
  intros w. unfold zadd. destruct (zadd_fault env s a w); cbn [snd].
  - apply R_zadd.
  - exact (R_trans _ _ _ (R_set_pool _ w) (R_zadd _ _ _)).
Qed.

Lemma respects_push_loop (ips acc : list string) : respects R (push_loop env ips acc).
Proof.
  revert acc. induction ips as [|ip rest IH]; intros acc; cbn [push_loop].
  - apply respects_ret.
  - apply respects_bind; [apply respects_zscore|].
    intros [s|]; [apply IH|].
    apply respects_bind; [apply respects_zadd|]. intros _. apply IH.
Qed.

Lemma respects_push_to_pool (arg : ips_arg) : respects R (push_to_pool env arg).
Proof.
  unfold push_to_pool.
  apply respects_bind.
  { intros w. unfold redis_share.
    destruct (redis_share_fault env w); cbn [snd]; now apply R_quiet. }
  intros _. apply respects_bind; [apply respects_push_loop|].
  intros needs. apply respects_bind.
  { destruct needs; [apply respects_ret|].
    intros w. unfold IPChecker_push_to_pool.
    destruct (checker_fault env _ w); cbn [snd]; apply R_push. }
  intros _. apply respects_bind; [apply respects_Logger|].
  intros _. apply respects_ret.
Qed.

Lemma respects_save_parse_result (result : iterable) :
  respects R (save_parse_result env result).
Proof.
  unfold save_parse_result. apply respects_bind.
  { unfold iter_end. destruct (then_raises result);
      [apply respects_raise|apply respects_ret]. }
  intros _. destruct (candidates (yields result)); [apply respects_ret|].
  apply respects_bind; [apply respects_Logger|].
  intros _. apply respects_bind; [apply respects_push_to_pool|].
  intros _. apply respects_ret.
Qed.

End Sink.

(** *** The parse boundary *)

Section Parse.

Hypothesis R_quiet : forall e w, quiet_event e = true -> R w (record e w).
Hypothesis R_save :
  forall result w, test_model w = false -> R w (snd (save_parse_result env result w)).

Lemma respects_Logger' lvl fmt args : respects R (Logger lvl fmt args).
Proof. intros w. now apply R_quiet. Qed.

Lemma respects_show_items (items : list item) : respects R (show_items items).
Proof.
  induction items as [|[s|] rest IH]; cbn [show_items].
  - apply respects_ret.
  - apply respects_bind; [apply respects_Logger'|]. intros _. exact IH.
  - exact IH.
Qed.

Lemma respects_show_result resp result : respects R (show_result resp result).
Proof.
  unfold show_result.
  apply respects_bind; [apply respects_Logger'|]. intros _.
  apply respects_bind; [apply respects_show_items|]. intros _.
  unfold iter_end. destruct (then_raises result);
    [apply respects_raise|apply respects_ret].
Qed.

Lemma respects_parse_site site resp : respects R (parse_site env site resp).
Proof.
  intros w. unfold parse_site, bind at 1, gets at 1.
  destruct (parsers w !! key site) as [p|]; [|apply R_refl].
  unfold try_except, bind, call_parser, gets.
  destruct (p resp) as [e|result]; cbn.
  - now apply R_quiet.
  - destruct (test_model w) eqn:Htest; cbn [negb].
    + pose proof (respects_show_result resp result w) as H.
      destruct (show_result resp result w) as [[u|e] w1]; cbn [snd] in *; [exact H|].
      exact (R_trans _ _ _ H (respects_Logger' _ _ _ w1)).
    + pose proof (R_save result w Htest) as H.
      destruct (save_parse_result env result w) as [[u|e] w1]; cbn [snd] in *; [exact H|].
      exact (R_trans _ _ _ H (respects_Logger' _ _ _ w1)).
Qed.

End Parse.

(** *** The page visit, the page loop and the polling loop *)

Section Page.

Hypothesis R_quiet : forall e w, quiet_event e = true -> R w (record e w).
Hypothesis R_parse : forall site resp, respects R (parse_site env site resp).

Lemma respects_crawl_single_page page site :
  respects R (crawl_single_page env page site).
Proof.
  unfold crawl_single_page. apply respects_bind.
  { destruct (use_proxy site); [|apply respects_ret].
    intros w. now apply R_quiet. }
  intros proxy. apply respects_try_except.
  - apply respects_bind; [intros w; now apply R_quiet|].
    intros text. apply respects_bind.
    + destruct (String.eqb text ""); [apply respects_raise|apply respects_ret].
    + intros r. apply R_parse.
  - intros e. apply respects_bind; [intros w; now apply R_quiet|].
    intros _. apply respects_raise.
Qed.

Lemma respects_crawl_single_page_retry page site :
  respects R (crawl_single_page_retry env page site).
Proof. apply respects_retry, respects_crawl_single_page. Qed.

Hypothesis R_visit : forall page w, R w (record (EvVisit page) w).
Hypothesis R_sleep : forall secs w, R w (record (EvSleep secs) w).

Lemma respects_crawl_page site page : respects R (crawl_page env site page).
Proof.
  unfold crawl_page. apply respects_try_finally.
  - apply respects_try_except.
    + apply respects_bind; [intros w; apply R_visit|].
      intros _. apply respects_crawl_single_page_retry.
    + intros e. destruct (is_MaxRetryException e);
        [intros w; now apply R_quiet|apply respects_raise].
  - unfold pacing. destruct (page_interval site =? 0)%Z;
      [apply respects_ret|intros w; apply R_sleep].
Qed.

Lemma respects_crawl_pages site pgs : respects R (crawl_pages env site pgs).
Proof.
  induction pgs as [|p rest IH]; cbn [crawl_pages].
  - apply respects_ret.
  - apply respects_bind; [apply respects_crawl_page|]. intros _. exact IH.
Qed.

Lemma respects_crawl_site site limit : respects R (crawl_site env site limit).
Proof. apply respects_crawl_pages. Qed.

Lemma respects_crawl_sites items : respects R (crawl_sites env items).
Proof.
  induction items as [|[k site] rest IH]; cbn [crawl_sites].
  - apply respects_ret.
  - apply respects_bind; [|intros _; exact IH].
    destruct (enabled site); [apply respects_crawl_site|apply respects_ret].
Qed.

Lemma respects_start_crawl : respects R (start_crawl env).
Proof.
  unfold start_crawl. apply respects_bind; [apply respects_gets|].
  intros items. apply respects_crawl_sites.
Qed.

Lemma respects_crawl_task passes : respects R (crawl_task env passes).
Proof.
  induction passes as [|n IH]; cbn [crawl_task].
  - apply respects_ret.
  - apply respects_bind; [intros w; now apply R_quiet|]. intros _.
    apply respects_bind; [apply respects_start_crawl|]. intros _.
    destruct (APP_ENV_is_TEST env); [apply respects_ret|].
    apply respects_bind; [intros w; apply R_sleep|]. intros _. exact IH.
Qed.

End Page.

End Frame.

(** ** The result sink *)

Section ResultSink.

Variable env : Env.

Lemma after_refl (w : World) : after w [] w.
Proof. unfold after, same_attrs. rewrite app_nil_r. auto. Qed.

Lemma after_trans (w1 w2 w3 : World) (t1 t2 : list event) :
  after w1 t1 w2 -> after w2 t2 w3 -> after w1 (t1 ++ t2) w3.
Proof.
  unfold after, same_attrs.
  intros (Ht1 & Ha1 & Hb1 & Hc1) (Ht2 & Ha2 & Hb2 & Hc2).
  rewrite Ht2, Ht1, app_assoc. repeat split; congruence.
Qed.

Lemma after_record (e : event) (w : World) : after w [e] (record e w).
Proof. unfold after, same_attrs. simpl. auto. Qed.

(** The loop of lines 65-70 on a store that never raises: what it adds to
    [needs_ip], what it calls and what it leaves in the pool. *)
Lemma push_loop_spec (ips : list string) :
  reliable_store env ->
  forall (acc : list string) (w : World),
  exists (new : list string) (t : list event) (w' : World),
    push_loop env ips acc w = (Ok (acc ++ new), w') /\
    after w t w' /\
    zadds t = map (fun a => (DEFAULT_SCORE env, a)) new /\
    pushes t = [] /\
    sent_counts t = [] /\
    NoDup new /\
    (forall a, a ∈ new <-> a ∈ ips /\ pool w !! a = None) /\
    (forall a, pool w' !! a =
               if decide (a ∈ new) then Some (DEFAULT_SCORE env) else pool w !! a).
Proof.
  intros (_ & Hz & Ha & _).
  induction ips as [|ip rest IH]; intros acc w.
  - exists [], [], w. cbn [push_loop]. unfold ret. rewrite app_nil_r.
    split; [reflexivity|]. split; [apply after_refl|].
    do 3 (split; [reflexivity|]). split; [constructor|].
    split; intros a.
    + rewrite elem_of_nil. tauto.
    + rewrite decide_False; [reflexivity|apply not_elem_of_nil].
  - cbn [push_loop]. unfold bind at 1. unfold zscore. rewrite Hz.
    destruct (pool w !! ip) as [s|] eqn:Hlook.
    + destruct (IH acc (record (EvZscore ip) w))
        as (new & t & w' & Hrun & Haft & Hzadd & Hpush & Hsent & Hnd & Hmem & Hpool).
      exists new, (EvZscore ip :: t), w'.
      split; [exact Hrun|].
      split; [apply (after_trans _ _ _ [EvZscore ip] t (after_record _ _) Haft)|].
      do 4 (split; [assumption|]).
      split; [|exact Hpool].
      intros a. rewrite Hmem, elem_of_cons. split.
      * intros [Hin Hnone]. auto.
      * intros [[->|Hin] Hnone]; [congruence|auto].
    + unfold bind at 1. unfold zadd. rewrite Ha.
      set (w2 := record (EvZadd (DEFAULT_SCORE env) ip)
                   (set_pool (<[ip:=DEFAULT_SCORE env]> (pool (record (EvZscore ip) w)))
                      (record (EvZscore ip) w))).
      destruct (IH (acc ++ [ip]) w2)
        as (new & t & w' & Hrun & Haft & Hzadd & Hpush & Hsent & Hnd & Hmem & Hpool).
      assert (Hp2 : pool w2 = <[ip:=DEFAULT_SCORE env]> (pool w)) by reflexivity.
      assert (Hnotin : ip ∉ new).
      { intros Hin. apply Hmem in Hin as [_ Hnone].
        rewrite Hp2, lookup_insert_eq in Hnone. discriminate. }
      exists (ip :: new), (EvZscore ip :: EvZadd (DEFAULT_SCORE env) ip :: t), w'.
      split.
      { rewrite Hrun. f_equal. f_equal. now rewrite <- app_assoc. }
      split.
      { apply (after_trans w (record (EvZscore ip) w) w' [EvZscore ip]
                 (EvZadd (DEFAULT_SCORE env) ip :: t) (after_record _ _)).
        apply (after_trans _ w2 w' [EvZadd (DEFAULT_SCORE env) ip] t); [|exact Haft].
        unfold after, same_attrs. subst w2. simpl. auto. }
      split; [cbn; unfold zadds in Hzadd; now rewrite Hzadd|].
      split; [exact Hpush|].
      split; [exact Hsent|].
      split; [now constructor|].
      split.
      * intros a. rewrite elem_of_cons, Hmem, Hp2. split.
        -- intros [->|[Hin Hnone]].
           ++ split; [apply elem_of_cons; now left|exact Hlook].
           ++ split; [apply elem_of_cons; now right|].
              destruct (decide (ip = a)) as [->|Hne].
              ** now rewrite lookup_insert_eq in Hnone.
              ** now rewrite lookup_insert_ne in Hnone.
        -- intros [Hin Hnone].
           destruct (decide (a = ip)) as [->|Hne]; [now left|right].
           apply elem_of_cons in Hin as [?|Hin]; [contradiction|].
           split; [exact Hin|]. rewrite lookup_insert_ne; auto.
      * intros a. rewrite Hpool, Hp2.
        destruct (decide (a ∈ new)) as [Hin|Hnin];
          destruct (decide (a ∈ ip :: new)) as [Hin'|Hnin']; try reflexivity.
        -- exfalso. apply Hnin'. apply elem_of_cons. now right.
        -- apply elem_of_cons in Hin' as [->|?]; [|contradiction].
           apply lookup_insert_eq.
        -- apply lookup_insert_ne. intros ->. apply Hnin'.
           apply elem_of_cons. now left.
Qed.

(** [push_to_pool] on a store that never raises. *)
Lemma push_to_pool_spec (arg : ips_arg) (w : World) :
  reliable_store env ->
  exists (needs_ip : list string) (t : list event) (w' : World),
    push_to_pool env arg w = (Ok (length (as_list arg)), w') /\
    after w t w' /\
    NoDup needs_ip /\
    (forall a, a ∈ needs_ip <-> a ∈ as_list arg /\ pool w !! a = None) /\
    zadds t = map (fun a => (DEFAULT_SCORE env, a)) needs_ip /\
    pushes t = match needs_ip with [] => [] | _ :: _ => [needs_ip] end /\
    sent_counts t = [Z.of_nat (length needs_ip)] /\
    (forall a, pool w' !! a =
               if decide (a ∈ needs_ip) then Some (DEFAULT_SCORE env) else pool w !! a).
Proof.
  intros Hrel.
  destruct (push_loop_spec (as_list arg) Hrel [] (record EvRedisShare w))
    as (new & t & w1 & Hrun & Haft & Hzadd & Hpush & Hsent & Hnd & Hmem & Hpool).
  destruct Hrel as (Hs & _ & _ & Hc).
  cbn [app] in Hrun.
  set (msg := EvLog Info "[get] send %d ip to ip pools" [ArgInt (Z.of_nat (length new))]).
  destruct new as [|a0 new0].
  - exists [], (EvRedisShare :: t ++ [msg]), (record msg w1).
    split.
    { unfold push_to_pool, bind, redis_share. rewrite Hs, Hrun. reflexivity. }
    split.
    { apply (after_trans _ _ _ [EvRedisShare] (t ++ [msg]) (after_record _ _)).
      apply (after_trans _ _ _ t [msg] Haft (after_record _ _)). }
    split; [exact Hnd|]. split; [exact Hmem|].
    split; [cbn; unfold zadds in *; rewrite omap_app, Hzadd; reflexivity|].
    split; [cbn; unfold pushes in *; rewrite omap_app, Hpush; reflexivity|].
    split; [cbn; unfold sent_counts in *; rewrite omap_app, Hsent; reflexivity|].
    exact Hpool.
  - set (push := EvCheckerPush (a0 :: new0)).
    exists (a0 :: new0), (EvRedisShare :: t ++ [push; msg]), (record msg (record push w1)).
    split.
    { unfold push_to_pool, bind, redis_share. rewrite Hs, Hrun.
      unfold IPChecker_push_to_pool. rewrite Hc. reflexivity. }
    split.
    { apply (after_trans _ _ _ [EvRedisShare] (t ++ [push; msg]) (after_record _ _)).
      apply (after_trans _ _ _ t [push; msg] Haft).
      apply (after_trans _ _ _ [push] [msg] (after_record _ _) (after_record _ _)). }
    split; [exact Hnd|]. split; [exact Hmem|].
    split; [cbn; unfold zadds in *; rewrite omap_app, Hzadd; cbn; now rewrite app_nil_r|].
    split; [cbn; unfold pushes in *; rewrite omap_app, Hpush; reflexivity|].
    split; [cbn; unfold sent_counts in *; rewrite omap_app, Hsent; reflexivity|].
    exact Hpool.
Qed.

End ResultSink.

(** *** Whatever the pool store does *)

Section ResultSinkSafety.

Variable env : Env.

(** The loop of lines 65-70 when calls may raise: it inserts only addresses
    the pool did not hold, and what the pool held stays as it was. *)
Lemma push_loop_safe (ips : list string) :
  forall (acc : list string) (w : World) (r : result (list string)) (w' : World),
  push_loop env ips acc w = (r, w') ->
  exists t : list event,
    trace w' = trace w ++ t /\
    pushes t = [] /\
    (forall s a, (s, a) ∈ zadds t -> pool w !! a = None) /\
    (forall a, pool w !! a <> None -> pool w' !! a = pool w !! a) /\
    (forall l, r = Ok l ->
               exists new, l = acc ++ new /\ forall a, a ∈ new -> pool w !! a = None).
Proof.
  induction ips as [|ip rest IH]; intros acc w r w' Hrun.
  - injection Hrun as <- <-. exists []. rewrite app_nil_r.
    split; [reflexivity|]. split; [reflexivity|].
    split; [intros s a Hin; inversion Hin|]. split; [reflexivity|].
    intros l [= <-]. exists []. rewrite app_nil_r. split; [reflexivity|].
    intros a Hin. inversion Hin.
  - cbn [push_loop] in Hrun. unfold bind at 1, zscore in Hrun.
    destruct (zscore_fault env ip w) as [e|].
    { injection Hrun as <- <-. exists [EvZscore ip].
      split; [reflexivity|]. split; [reflexivity|].
      split; [intros s a Hin; inversion Hin|]. split; [reflexivity|discriminate]. }
    destruct (pool w !! ip) as [s0|] eqn:Hlook.
    + destruct (IH acc (record (EvZscore ip) w) r w' Hrun)
        as (t & Ht & Hpu & Hz & Hpool & Hres).
      exists (EvZscore ip :: t).
      split; [rewrite Ht; cbn; now rewrite <- app_assoc|].
      split; [exact Hpu|]. split; [exact Hz|]. split; [exact Hpool|exact Hres].
    + unfold bind at 1, zadd in Hrun.
      destruct (zadd_fault env (DEFAULT_SCORE env) ip (record (EvZscore ip) w)) as [e|].
      { injection Hrun as <- <-.
        exists [EvZscore ip; EvZadd (DEFAULT_SCORE env) ip].
        split; [cbn; now rewrite <- app_assoc|]. split; [reflexivity|].
        split; [|split; [reflexivity|discriminate]].
        intros s a Hin. apply list_elem_of_singleton in Hin as [= -> ->]. exact Hlook. }
      set (w2 := record (EvZadd (DEFAULT_SCORE env) ip)
                   (set_pool (<[ip:=DEFAULT_SCORE env]> (pool (record (EvZscore ip) w)))
                      (record (EvZscore ip) w))) in Hrun.
      assert (Hp2 : pool w2 = <[ip:=DEFAULT_SCORE env]> (pool w)) by reflexivity.
      assert (Hmono : forall a, pool w2 !! a = None -> pool w !! a = None).
      { intros a. rewrite Hp2. destruct (decide (ip = a)) as [->|Hne].
        - now rewrite lookup_insert_eq.
        - now rewrite lookup_insert_ne. }
      destruct (IH (acc ++ [ip]) w2 r w' Hrun) as (t & Ht & Hpu & Hz & Hpool & Hres).
      exists (EvZscore ip :: EvZadd (DEFAULT_SCORE env) ip :: t).
      split; [rewrite Ht; cbn; now rewrite <- !app_assoc|].
      split; [exact Hpu|].
      split.
      { intros s a Hin.
        change (zadds (EvZscore ip :: EvZadd (DEFAULT_SCORE env) ip :: t))
          with ((DEFAULT_SCORE env, ip) :: zadds t) in Hin.
        apply elem_of_cons in Hin as [[= -> ->]|Hin]; [exact Hlook|].
        apply Hmono. now apply (Hz s). }
      split.
      { intros a Ha. rewrite Hpool.
        - rewrite Hp2. apply lookup_insert_ne. intros ->. now apply Ha.
        - intros Hnone. now apply Ha, Hmono. }
      intros l Hl. destruct (Hres l Hl) as (new & -> & Hnew).
      exists (ip :: new). split; [now rewrite <- app_assoc|].
      intros a Hin. apply elem_of_cons in Hin as [->|Hin]; [exact Hlook|].
      now apply Hmono, Hnew.
Qed.

(** [push_to_pool] when calls may raise: at most one forwarding call; an
    address the pool held is in no insertion and in no forwarded batch and
    keeps its score; a value returned is the length of the input. *)
Lemma push_to_pool_safe (arg : ips_arg) (w : World) (r : result nat) (w' : World) :
  push_to_pool env arg w = (r, w') ->
  exists t : list event,
    trace w' = trace w ++ t /\
    length (pushes t) <= 1 /\
    (forall s a, (s, a) ∈ zadds t -> pool w !! a = None) /\
    (forall batch a, batch ∈ pushes t -> a ∈ batch -> pool w !! a = None) /\
    (forall a, pool w !! a <> None -> pool w' !! a = pool w !! a) /\
    (forall n, r = Ok n -> n = length (as_list arg)).
Proof.
  intros Hrun. unfold push_to_pool, bind at 1, redis_share in Hrun.
  destruct (redis_share_fault env w) as [e|].
  { injection Hrun as <- <-. exists [EvRedisShare].
    split; [reflexivity|]. split; [cbn; lia|].
    split; [intros s a Hin; inversion Hin|].
    split; [intros b a Hin; inversion Hin|]. split; [reflexivity|discriminate]. }
  unfold bind at 1 in Hrun.
  destruct (push_loop env (as_list arg) [] (record EvRedisShare w)) as [rl w1] eqn:Hloop.
  destruct (push_loop_safe (as_list arg) [] (record EvRedisShare w) rl w1 Hloop)
    as (t & Ht & Hpu & Hz & Hpool & Hres).
  destruct rl as [needs|e].
  2:{ injection Hrun as <- <-. exists (EvRedisShare :: t).
      split; [rewrite Ht; cbn; now rewrite <- app_assoc|].
      change (pushes (EvRedisShare :: t)) with (pushes t).
      change (zadds (EvRedisShare :: t)) with (zadds t).
      rewrite Hpu. split; [cbn; lia|]. split; [exact Hz|].
      split; [intros b a Hin; inversion Hin|]. split; [exact Hpool|discriminate]. }
  destruct (Hres needs eq_refl) as (new & Hneeds & Hnew). cbn [app] in Hneeds. subst new.
  set (msg := EvLog Info "[get] send %d ip to ip pools" [ArgInt (Z.of_nat (length needs))])
    in *.
  destruct needs as [|a0 needs0].
  - unfold bind, ret, Logger, emit in Hrun. fold msg in Hrun. injection Hrun as <- <-.
    exists (EvRedisShare :: t ++ [msg]).
    split; [cbn; rewrite Ht; cbn; now rewrite <- !app_assoc|].
    replace (zadds (EvRedisShare :: t ++ [msg])) with (zadds t)
      by (change (zadds t = zadds (t ++ [msg])); rewrite zadds_app; cbn;
          now rewrite app_nil_r).
    replace (pushes (EvRedisShare :: t ++ [msg])) with ([] : list (list string))
      by (change ([] = pushes (t ++ [msg])); rewrite pushes_app, Hpu; reflexivity).
    split; [cbn; lia|]. split; [exact Hz|].
    split; [intros b a Hin; inversion Hin|]. split; [exact Hpool|].
    now intros n [= <-].
  - set (push := EvCheckerPush (a0 :: needs0)).
    unfold bind at 1, IPChecker_push_to_pool in Hrun.
    destruct (checker_fault env (a0 :: needs0) w1) as [e|].
    + injection Hrun as <- <-. exists (EvRedisShare :: t ++ [push]).
      split; [cbn; rewrite Ht; cbn; now rewrite <- !app_assoc|].
      replace (zadds (EvRedisShare :: t ++ [push])) with (zadds t)
        by (change (zadds t = zadds (t ++ [push])); rewrite zadds_app; cbn;
            now rewrite app_nil_r).
      replace (pushes (EvRedisShare :: t ++ [push])) with ([a0 :: needs0] : list (list string))
        by (change ([a0 :: needs0] = pushes (t ++ [push])); rewrite pushes_app, Hpu; reflexivity).
      split; [cbn; lia|]. split; [exact Hz|].
      split; [|split; [exact Hpool|discriminate]].
      intros b a Hin%list_elem_of_singleton Ha. subst b. now apply Hnew.
    + unfold bind, ret, Logger, emit in Hrun. fold msg in Hrun. injection Hrun as <- <-.
      exists (EvRedisShare :: t ++ [push; msg]).
      split; [cbn; rewrite Ht; cbn; now rewrite <- !app_assoc|].
      replace (zadds (EvRedisShare :: t ++ [push; msg])) with (zadds t)
        by (change (zadds t = zadds (t ++ [push; msg])); rewrite zadds_app; cbn;
            now rewrite app_nil_r).
      replace (pushes (EvRedisShare :: t ++ [push; msg])) with ([a0 :: needs0] : list (list string))
        by (change ([a0 :: needs0] = pushes (t ++ [push; msg])); rewrite pushes_app, Hpu; reflexivity).
      split; [cbn; lia|]. split; [exact Hz|].
      split; [|split; [exact Hpool|now intros n [= <-]]].
      intros b a Hin%list_elem_of_singleton Ha. subst b. now apply Hnew.
Qed.

End ResultSinkSafety.

(** *** The dedup invariant *)


Lemma quiet_env_reliable : reliable_store quiet_env.
Proof. repeat split. Qed.


(** One address known, one new and given twice. *)
Example known_and_new_address :
  let r := push_to_pool quiet_env
             (AList ["1.2.3.4:8080"; "5.6.7.8:3128"; "5.6.7.8:3128"]) seen_world in
  zadds (trace (snd r)) = [(10%Z, "5.6.7.8:3128")] /\
  pushes (trace (snd r)) = [["5.6.7.8:3128"]] /\
  pool (snd r) !! "1.2.3.4:8080" = Some 7%Z /\
  pool (snd r) !! "5.6.7.8:3128" = Some 10%Z.
Proof. vm_compute. repeat split. Qed.


Section ResultSinkCount.

Variable env : Env.

(** C2, amended. A value returned by [push_to_pool] is the length of the
    list it was given (1 for an argument that is not a list). On a pool
    store that answers every call it does return; the count it logs is the
    number of addresses it inserted, which is at most the value returned. *)
Theorem push_to_pool_returns_input_length (arg : ips_arg) (w : World) :
  (forall n w', push_to_pool env arg w = (Ok n, w') -> n = length (as_list arg)) /\
  (reliable_store env ->
   exists (needs_ip : list string) (t : list event) (w' : World),
     push_to_pool env arg w = (Ok (length (as_list arg)), w') /\
     trace w' = trace w ++ t /\
     zadds t = map (fun a => (DEFAULT_SCORE env, a)) needs_ip /\
     sent_counts t = [Z.of_nat (length needs_ip)] /\
     length needs_ip <= length (as_list arg)).
Proof.
  split.
  { intros n w' Hrun.
    destruct (push_to_pool_safe env arg w (Ok n) w' Hrun) as (_ & _ & _ & _ & _ & _ & Hn).
    now apply Hn. }
  intros Hrel.
  destruct (push_to_pool_spec env arg w Hrel)
    as (needs & t & w' & Hrun & [Htr _] & Hnd & Hmem & Hzadd & _ & Hsent & _).
  exists needs, t, w'. repeat (split; [assumption|]).
  apply submseteq_length, NoDup_submseteq; [exact Hnd|].
  intros a Hin. now apply Hmem in Hin.
Qed.

End ResultSinkCount.

Lemma push_to_pool_returns_input_length_witness :
  exists (needs_ip : list string) (t : list event) (w' : World),
    push_to_pool quiet_env (NotAList "1.2.3.4:8080") seen_world = (Ok 1, w') /\
    trace w' = trace seen_world ++ t /\
    zadds t = map (fun a => (DEFAULT_SCORE quiet_env, a)) needs_ip /\
    sent_counts t = [Z.of_nat (length needs_ip)] /\
    length needs_ip <= 1.
Proof.
  apply (proj2 (push_to_pool_returns_input_length quiet_env (NotAList "1.2.3.4:8080")
                  seen_world)).
  exact quiet_env_reliable.
Defined.

(** The value returned is not the count of new addresses: an address the
    pool already holds is submitted again; nothing is inserted, nothing is
    forwarded, the count logged is 0, and the value returned is 1. *)
Lemma push_to_pool_return_counterexample :
  let r := push_to_pool quiet_env (AList ["1.2.3.4:8080"]) seen_world in
  fst r = Ok 1 /\
  zadds (trace (snd r)) = [] /\
  pushes (trace (snd r)) = [] /\
  sent_counts (trace (snd r)) = [0%Z].
Proof. vm_compute. repeat split. Qed.

(** ** The retry budget *)

Section RetrySteps.

Context {St A : Type}.
Variable op : St -> result A * St.

Lemma retry_again (budget : nat) (s s1 : St) (e : exn) :
  op s = (Raise e, s1) -> retryable e = true ->
  retry (S budget) op s = retry budget op s1.
Proof. intros Hop Hre. cbn [retry]. now rewrite Hop, Hre. Qed.



End RetrySteps.

Section RetryBudget.

Context {St A : Type}.
Variable op : St -> result A * St.




End RetryBudget.


(** ** Instances of the frame rules *)

Lemma grows_refl allowed (w : World) : grows allowed w w.
Proof.
  split; [unfold same_attrs; auto|]. exists []. now rewrite app_nil_r.
Qed.

Lemma grows_trans allowed (w1 w2 w3 : World) :
  grows allowed w1 w2 -> grows allowed w2 w3 -> grows allowed w1 w3.
Proof.
  intros [(Ha1 & Hb1 & Hc1) (t1 & Ht1 & Hall1)] [(Ha2 & Hb2 & Hc2) (t2 & Ht2 & Hall2)].
  split; [unfold same_attrs; repeat split; congruence|].
  exists (t1 ++ t2). rewrite Ht2, Ht1, app_assoc, forallb_app, Hall1, Hall2. auto.
Qed.

Lemma grows_record allowed (e : event) (w : World) :
  allowed e = true -> grows allowed w (record e w).
Proof.
  intros He. split; [unfold same_attrs; auto|].
  exists [e]. cbn. now rewrite He.
Qed.

Lemma grows_set_pool allowed p (w : World) : grows allowed w (set_pool p w).
Proof.
  split; [unfold same_attrs; auto|]. exists []. cbn. now rewrite app_nil_r.
Qed.

(** A page visit, retries included, only makes calls other than [EvVisit]
    and [EvSleep], and leaves the attributes of the engine alone. *)
Lemma crawl_single_page_retry_grows env page site (w : World) :
  grows (fun e => negb (is_pacing e)) w (snd (crawl_single_page_retry env page site w)).
Proof.
  apply respects_crawl_single_page_retry.
  - apply grows_refl.
  - apply grows_trans.
  - intros e w0 He. apply grows_record. now destruct e.
  - intros site0 resp. apply respects_parse_site.
    + apply grows_refl.
    + apply grows_trans.
    + intros e w0 He. apply grows_record. now destruct e.
    + intros result w0 _. revert w0.
      apply respects_save_parse_result.
      * apply grows_refl.
      * apply grows_trans.
      * intros e w1 He. apply grows_record. now destruct e.
      * intros. now apply grows_record.
      * intros. apply grows_set_pool.
      * intros. now apply grows_record.
Qed.

Lemma pace_view_app (t1 t2 : list event) :
  pace_view (t1 ++ t2) = pace_view t1 ++ pace_view t2.
Proof. apply filter_app. Qed.

Lemma pace_view_none (t : list event) :
  forallb (fun e => negb (is_pacing e)) t = true -> pace_view t = [].
Proof.
  induction t as [|e t IH]; [reflexivity|].
  cbn [forallb]. intros [He Ht]%andb_true_iff.
  unfold pace_view. rewrite filter_cons.
  destruct (decide (is_pacing e = true)) as [Hp|_].
  - rewrite Hp in He. discriminate.
  - now apply IH.
Qed.

(** ** Pacing *)

Section Pacing.

Variable env : Env.

Lemma sleeps_none (t : list event) : pace_view t = [] -> sleeps t = [].
Proof.
  induction t as [|e t IH]; [reflexivity|].
  unfold pace_view. rewrite filter_cons.
  destruct (decide (is_pacing e = true)) as [|Hne]; [discriminate|].
  intros Ht. change (sleeps (e :: t)) with (sleeps ([e] ++ t)).
  rewrite sleeps_app, (IH Ht), app_nil_r.
  destruct e; try reflexivity. now contradiction Hne.
Qed.

Lemma pacing_eq (site : SiteData) (w : World) :
  pacing site w =
  (Ok tt, if (page_interval site =? 0)%Z then w else record (EvSleep (page_interval site)) w).
Proof. unfold pacing. now destruct (page_interval site =? 0)%Z. Qed.

(** Lines 85-92 by the outcome of the visit. *)
Lemma crawl_page_eq (site : SiteData) (page : string) (w : World) :
  crawl_page env site page w =
  match crawl_single_page_retry env page site (record (EvVisit page) w) with
  | (Ok _, wv) => (Ok tt, snd (pacing site wv))
  | (Raise e, wv) =>
      if is_MaxRetryException e
      then (Ok tt, snd (pacing site
                          (record (EvLog Warn "[get] Max retry skip, message: %s"
                                     [ArgStr (exn_str e)]) wv)))
      else (Raise e, snd (pacing site wv))
  end.
Proof.
  unfold crawl_page, try_finally, try_except, bind, emit.
  destruct (crawl_single_page_retry env page site (record (EvVisit page) w))
    as [[[]|e] wv].
  - now rewrite pacing_eq.
  - destruct (is_MaxRetryException e); unfold Logger, emit, raise;
      now rewrite pacing_eq.
Qed.

(** One turn of the page loop: the outcome of the visit decides what the
    turn returns, never whether the pacing runs. *)
Lemma crawl_page_turn (site : SiteData) (page : string) (w : World) :
  exists (r : result unit) (wv : World) (body skip : list event),
    crawl_single_page_retry env page site (record (EvVisit page) w) = (r, wv) /\
    trace wv = trace w ++ EvVisit page :: body /\
    pace_view body = [] /\
    skip = match r with
           | Raise (MaxRetryException msg) =>
               [EvLog Warn "[get] Max retry skip, message: %s" [ArgStr msg]]
           | _ => []
           end /\
    fst (crawl_page env site page w) =
      match r with
      | Raise e => if is_MaxRetryException e then Ok tt else Raise e
      | Ok _ => Ok tt
      end /\
    trace (snd (crawl_page env site page w)) =
      trace w ++ EvVisit page :: (body ++ skip) ++
        (if (page_interval site =? 0)%Z then [] else [EvSleep (page_interval site)]) /\
    same_attrs w (snd (crawl_page env site page w)).
Proof.
  pose proof (crawl_single_page_retry_grows env page site (record (EvVisit page) w))
    as [Hattr (body & Hbody & Hall)].
  destruct (crawl_single_page_retry env page site (record (EvVisit page) w))
    as [r wv] eqn:Hrun.
  cbn [snd] in *.
  exists r, wv, body, (match r with
                       | Raise (MaxRetryException msg) =>
                           [EvLog Warn "[get] Max retry skip, message: %s" [ArgStr msg]]
                       | _ => []
                       end).
  split; [reflexivity|].
  split; [rewrite Hbody; cbn; now rewrite <- app_assoc|].
  split; [now apply pace_view_none|].
  split; [reflexivity|].
  assert (Htr : trace wv = trace w ++ EvVisit page :: body)
    by (rewrite Hbody; cbn; now rewrite <- app_assoc).
  assert (Hat : same_attrs w wv) by exact Hattr.
  rewrite crawl_page_eq, Hrun.
  destruct r as [[]|e].
  - rewrite pacing_eq. cbn [fst snd]. split; [reflexivity|].
    destruct (page_interval site =? 0)%Z; cbn [record set_trace trace];
      rewrite Htr, ?app_nil_r; (split; [|exact Hat]);
      rewrite <- ?app_assoc; reflexivity.
  - destruct e as [m|c|m|c m]; cbn [is_MaxRetryException exn_str];
      rewrite pacing_eq; cbn [fst snd]; (split; [reflexivity|]);
      destruct (page_interval site =? 0)%Z; cbn [record set_trace trace];
      rewrite Htr, ?app_nil_r; (split; [|exact Hat]);
      rewrite <- ?app_assoc; cbn [app]; rewrite <- ?app_assoc; reflexivity.
Qed.

Lemma crawl_pages_turns (site : SiteData) (pgs : list string) (w : World) :
  page_interval site <> 0%Z ->
  exists (t : list event) (visited : list string),
    trace (snd (crawl_pages env site pgs w)) = trace w ++ t /\
    visited `prefix_of` pgs /\
    (fst (crawl_pages env site pgs w) = Ok tt -> visited = pgs) /\
    page_turns (page_interval site) visited t.
Proof.
  intros Hnz. revert w. induction pgs as [|p rest IH]; intros w.
  - exists [], []. cbn. rewrite app_nil_r.
    repeat split; [reflexivity|constructor].
  - destruct (crawl_page_turn site p w)
      as (r & wv & body & skip & _ & _ & Hbody & Hskip & Hres & Htr & _).
    apply Z.eqb_neq in Hnz. rewrite Hnz in Htr.
    assert (Hpv : pace_view (body ++ skip) = []).
    { rewrite pace_view_app, Hbody, Hskip.
      destruct r as [|[]]; reflexivity. }
    cbn [crawl_pages]. unfold bind.
    destruct (crawl_page env site p w) as [[[]|e] w1]; cbn [fst snd] in *.
    + destruct (IH w1) as (t & visited & Ht & Hpre & Hok & Hturns).
      exists (EvVisit p :: (body ++ skip) ++ EvSleep (page_interval site) :: t),
        (p :: visited).
      split; [rewrite Ht, Htr; rewrite <- ?app_assoc; cbn [app]; rewrite <- ?app_assoc; reflexivity|].
      split; [now apply prefix_cons|].
      split; [intros H; now rewrite (Hok H)|].
      now constructor.
    + exists (EvVisit p :: (body ++ skip) ++ [EvSleep (page_interval site)]), [p].
      split; [exact Htr|].
      split; [apply prefix_cons, prefix_nil|].
      split; [discriminate|].
      constructor; [exact Hpv|constructor].
Qed.

(** C5. With a nonzero pacing interval, the calls made by a crawl of a
    source are a sequence of page turns, one for each page visited: the
    visit, then calls that are neither visits nor sleeps, then exactly one
    sleep of the interval, whatever the visit returned or raised. The pages
    visited are the first pages of the slice, and all of it when the crawl
    returns. *)
Theorem pacing_after_every_visit (site : SiteData) (page_limit : Z) (w : World) :
  page_interval site <> 0%Z ->
  exists (t : list event) (visited : list string),
    trace (snd (crawl_site env site page_limit w)) = trace w ++ t /\
    visited `prefix_of` page_slice (pages site) page_limit /\
    (fst (crawl_site env site page_limit w) = Ok tt ->
     visited = page_slice (pages site) page_limit) /\
    page_turns (page_interval site) visited t /\
    sleeps t = repeat (page_interval site) (length visited).
Proof.
  intros Hnz. unfold crawl_site.
  destruct (crawl_pages_turns site (page_slice (pages site) page_limit) w Hnz)
    as (t & visited & Ht & Hpre & Hok & Hturns).
  exists t, visited. repeat (split; [assumption|]).
  clear -Hturns. induction Hturns as [|p ps body t Hbody _ IH]; [reflexivity|].
  change (EvVisit p :: body ++ EvSleep (page_interval site) :: t)
    with ([EvVisit p] ++ body ++ [EvSleep (page_interval site)] ++ t).
  rewrite !sleeps_app, IH, (sleeps_none body Hbody). reflexivity.
Qed.

End Pacing.

(** ** The parse boundary *)

Section ParseBoundary.

Variable env : Env.

Lemma set_trace_same (w : World) : set_trace (trace w ++ []) w = w.
Proof. rewrite app_nil_r. now destruct w. Qed.

Lemma set_trace_twice (t1 t2 : list event) (w : World) :
  set_trace (trace (set_trace (trace w ++ t1) w) ++ t2) (set_trace (trace w ++ t1) w)
  = set_trace (trace w ++ t1 ++ t2) w.
Proof. unfold set_trace. cbn. now rewrite app_assoc. Qed.

Lemma set_trace_record (e : event) (t : list event) (w : World) :
  set_trace (trace (record e w) ++ t) (record e w) = set_trace (trace w ++ e :: t) w.
Proof. unfold record, set_trace. cbn. now rewrite <- app_assoc. Qed.

Lemma record_set_trace (t : list event) (e : event) (w : World) :
  record e (set_trace (trace w ++ t) w) = set_trace (trace w ++ t ++ [e]) w.
Proof. unfold record, set_trace. cbn. now rewrite app_assoc. Qed.

(** [parse_site] returns, whatever the parser and the sink do. *)
Lemma parse_site_never_raises (site : SiteData) (resp : SiteResponse) (w : World) :
  fst (parse_site env site resp w) = Ok tt.
Proof.
  unfold parse_site, bind at 1, gets at 1.
  destruct (parsers w !! key site) as [p|]; [|reflexivity].
  unfold try_except.
  destruct (bind (call_parser p resp) _ w) as [[[]|e] w1]; reflexivity.
Qed.

(** Lines 123-130, by what the parser does. *)
Lemma parse_site_bound (site : SiteData) (resp : SiteResponse) (w : World) (p : parser) :
  parsers w !! key site = Some p ->
  parse_site env site resp w =
  match p resp with
  | ParserRaises e => (Ok tt, record (parse_error_log e) w)
  | ParserReturns result =>
      match (if test_model w then show_result resp result
             else save_parse_result env result) w with
      | (Ok _, w1) => (Ok tt, w1)
      | (Raise e, w1) => (Ok tt, record (parse_error_log e) w1)
      end
  end.
Proof.
  intros Hp. unfold parse_site, bind at 1, gets at 1. rewrite Hp.
  unfold try_except, bind, call_parser, gets.
  destruct (p resp) as [e|result]; [reflexivity|].
  unfold ret. destruct (test_model w); cbn [negb].
  - destruct (show_result resp result w) as [[[]|e] w1]; reflexivity.
  - destruct (save_parse_result env result w) as [[[]|e] w1]; reflexivity.
Qed.

(** Line 121-122. *)
Lemma parse_site_no_parser (site : SiteData) (resp : SiteResponse) (w : World) :
  parsers w !! key site = None ->
  parse_site env site resp w = (Ok tt, w).
Proof.
  intros Hnone. unfold parse_site, bind, gets. now rewrite Hnone.
Qed.

(** C8. With no parser bound to the key of the source, [parse_site]
    returns and the world is what it was, whatever the response: no call
    was made, so nothing was inserted into the pool and nothing forwarded. *)
Theorem parse_site_unbound (site : SiteData) (resp : SiteResponse) (w : World) :
  parsers w !! key site = None ->
  parse_site env site resp w = (Ok tt, w) /\
  pool (snd (parse_site env site resp w)) = pool w /\
  zadds (trace (snd (parse_site env site resp w))) = zadds (trace w) /\
  pushes (trace (snd (parse_site env site resp w))) = pushes (trace w).
Proof.
  intros Hnone. rewrite (parse_site_no_parser site resp w Hnone). auto.
Qed.

(** [show_result] only logs. *)
Lemma show_items_logs (items : list item) (w : World) :
  exists logs, show_items items w = (Ok tt, set_trace (trace w ++ logs) w) /\
               forallb is_log logs = true.
Proof.
  revert w. induction items as [|[s|] rest IH]; intros w; cbn [show_items].
  - exists []. now rewrite set_trace_same.
  - unfold bind, Logger, emit.
    destruct (IH (record (EvLog Info "[get] Get ip: %s" [ArgStr s]) w))
      as (logs & Hrun & Hall).
    exists (EvLog Info "[get] Get ip: %s" [ArgStr s] :: logs).
    rewrite Hrun. split; [|exact Hall].
    now rewrite set_trace_record.
  - apply IH.
Qed.

Lemma show_result_logs (resp : SiteResponse) (result : iterable) (w : World) :
  exists logs,
    show_result resp result w =
      (match then_raises result with Some e => Raise e | None => Ok tt end,
       set_trace (trace w ++ logs) w) /\
    forallb is_log logs = true.
Proof.
  unfold show_result, bind, Logger, emit.
  destruct (show_items_logs (yields result) (record (EvLog Info "[get] Url: %s" [ArgStr (url resp)]) w))
    as (logs & Hrun & Hall).
  rewrite Hrun.
  exists (EvLog Info "[get] Url: %s" [ArgStr (url resp)] :: logs).
  split; [|exact Hall].
  rewrite set_trace_record.
  unfold iter_end. now destruct (then_raises result).
Qed.

(** A parser that raises, when called or while its result is iterated:
    [parse_site] returns, having made no call but to the logger, the last
    of them the error of line 130. *)
Lemma parser_failure_logged (site : SiteData) (resp : SiteResponse) (w : World)
      (p : parser) (e : exn) :
  parsers w !! key site = Some p ->
  parser_fails p resp e ->
  exists logs,
    parse_site env site resp w =
      (Ok tt, set_trace (trace w ++ logs ++ [parse_error_log e]) w) /\
    forallb is_log logs = true.
Proof.
  intros Hp Hfail. rewrite (parse_site_bound site resp w p Hp).
  destruct Hfail as [Hcall|[items Hiter]].
  - rewrite Hcall. exists []. split; reflexivity.
  - rewrite Hiter. destruct (test_model w).
    + destruct (show_result_logs resp {| yields := items; then_raises := Some e |} w)
        as (logs & Hrun & Hall).
      rewrite Hrun. cbn [then_raises]. exists logs. split; [|exact Hall].
      now rewrite record_set_trace.
    + unfold save_parse_result, bind, iter_end. cbn [then_raises]. unfold raise.
      exists []. split; [|reflexivity]. reflexivity.
Qed.

End ParseBoundary.

(** ** No insertion, no forwarding *)

Lemma logs_forward_nothing (t : list event) :
  forallb is_log t = true -> zadds t = [] /\ pushes t = [].
Proof.
  induction t as [|e t IH]; [auto|].
  cbn [forallb]. intros [He Ht]%andb_true_iff.
  destruct (IH Ht) as [Hz Hp].
  change (e :: t) with ([e] ++ t). rewrite zadds_app, pushes_app, Hz, Hp.
  now destruct e.
Qed.

Lemma no_forwarding_refl (w : World) : no_forwarding w w.
Proof. unfold no_forwarding, same_attrs. auto 10. Qed.

Lemma no_forwarding_trans (w1 w2 w3 : World) :
  no_forwarding w1 w2 -> no_forwarding w2 w3 -> no_forwarding w1 w3.
Proof.
  unfold no_forwarding, same_attrs.
  intros ((?&?&?)&?&?&?) ((?&?&?)&?&?&?). repeat split; congruence.
Qed.

Lemma no_forwarding_set_trace (t : list event) (w : World) :
  zadds t = [] -> pushes t = [] -> no_forwarding w (set_trace (trace w ++ t) w).
Proof.
  intros Hz Hp. unfold no_forwarding, same_attrs. cbn.
  rewrite zadds_app, pushes_app, Hz, Hp, !app_nil_r. auto 10.
Qed.

Lemma no_forwarding_record (e : event) (w : World) :
  match e with EvZadd _ _ | EvCheckerPush _ => False | _ => True end ->
  no_forwarding w (record e w).
Proof.
  intros He. apply (no_forwarding_set_trace [e] w); now destruct e.
Qed.

Lemma no_forwarding_delta (w w' : World) (t : list event) :
  no_forwarding w w' -> trace w' = trace w ++ t ->
  zadds t = [] /\ pushes t = [] /\ pool w' = pool w.
Proof.
  intros (_ & Hpool & Hz & Hp) Ht. rewrite Ht in Hz, Hp.
  rewrite zadds_app in Hz. rewrite pushes_app in Hp.
  split; [|split; [|exact Hpool]].
  - apply (app_inv_head (zadds (trace w))). now rewrite app_nil_r.
  - apply (app_inv_head (pushes (trace w))). now rewrite app_nil_r.
Qed.

Section QuietUnder.

Variable env : Env.
Variable P : World -> Prop.
Hypothesis P_attrs : forall w w', same_attrs w w' -> P w -> P w'.

Lemma quiet_under_refl (w : World) : quiet_under P w w.
Proof. intros _. apply no_forwarding_refl. Qed.

Lemma quiet_under_trans (w1 w2 w3 : World) :
  quiet_under P w1 w2 -> quiet_under P w2 w3 -> quiet_under P w1 w3.
Proof.
  intros H12 H23 HP. specialize (H12 HP).
  apply (no_forwarding_trans _ _ _ H12), H23, (P_attrs w1); [apply H12|exact HP].
Qed.

Lemma quiet_under_record (e : event) (w : World) :
  match e with EvZadd _ _ | EvCheckerPush _ => False | _ => True end ->
  quiet_under P w (record e w).
Proof. intros He _. now apply no_forwarding_record. Qed.

(** When [parse_site] is quiet from the worlds of [P], so is everything
    above it, up to the polling loop. *)
Lemma quiet_under_crawl_task (passes : nat) :
  (forall site resp, respects (quiet_under P) (parse_site env site resp)) ->
  respects (quiet_under P) (crawl_task env passes).
Proof.
  intros Hparse. apply respects_crawl_task; auto using quiet_under_refl.
  - apply quiet_under_trans.
  - intros e w He. apply quiet_under_record. now destruct e.
  - intros. now apply quiet_under_record.
  - intros. now apply quiet_under_record.
Qed.

Lemma quiet_under_start_crawl :
  (forall site resp, respects (quiet_under P) (parse_site env site resp)) ->
  respects (quiet_under P) (start_crawl env).
Proof.
  intros Hparse. apply respects_start_crawl; auto using quiet_under_refl.
  - apply quiet_under_trans.
  - intros e w He. apply quiet_under_record. now destruct e.
  - intros. now apply quiet_under_record.
  - intros. now apply quiet_under_record.
Qed.

Lemma quiet_under_crawl_site (site : SiteData) (page_limit : Z) :
  (forall site resp, respects (quiet_under P) (parse_site env site resp)) ->
  respects (quiet_under P) (crawl_site env site page_limit).
Proof.
  intros Hparse. apply respects_crawl_site; auto using quiet_under_refl.
  - apply quiet_under_trans.
  - intros e w He. apply quiet_under_record. now destruct e.
  - intros. now apply quiet_under_record.
  - intros. now apply quiet_under_record.
Qed.

Lemma quiet_under_crawl_single_page_retry (page : string) (site : SiteData) :
  (forall site resp, respects (quiet_under P) (parse_site env site resp)) ->
  respects (quiet_under P) (crawl_single_page_retry env page site).
Proof.
  intros Hparse. apply respects_crawl_single_page_retry; auto using quiet_under_refl.
  - apply quiet_under_trans.
  - intros e w He. apply quiet_under_record. now destruct e.
Qed.

End QuietUnder.

Section Quiet.

Variable env : Env.

Lemma in_test_mode_attrs (w w' : World) : same_attrs w w' -> in_test_mode w -> in_test_mode w'.
Proof. unfold in_test_mode. intros (Ht & _ & _). congruence. Qed.

Lemma broken_parsers_attrs (w w' : World) :
  same_attrs w w' -> broken_parsers w -> broken_parsers w'.
Proof.
  unfold broken_parsers. intros (_ & _ & Hp) Hb k p resp. rewrite Hp. apply Hb.
Qed.

(** In test mode [parse_site] shows its results and saves nothing. *)
Lemma parse_site_test_quiet (site : SiteData) (resp : SiteResponse) :
  respects (quiet_under in_test_mode) (parse_site env site resp).
Proof.
  apply respects_parse_site.
  - apply quiet_under_refl.
  - apply quiet_under_trans, in_test_mode_attrs.
  - intros e w He. apply quiet_under_record. now destruct e.
  - intros result w Hoff Hon. unfold in_test_mode in Hon. congruence.
Qed.

(** With every parser broken [parse_site] saves nothing either. *)
Lemma parse_site_broken_quiet (site : SiteData) (resp : SiteResponse) :
  respects (quiet_under broken_parsers) (parse_site env site resp).
Proof.
  intros w Hbroken.
  destruct (parsers w !! key site) as [p|] eqn:Hp.
  - destruct (Hbroken _ p resp Hp) as [e Hfail].
    destruct (parser_failure_logged env site resp w p e Hp Hfail) as (logs & Hrun & Hall).
    rewrite Hrun. cbn [snd].
    destruct (logs_forward_nothing logs Hall) as [Hz Hpu].
    apply no_forwarding_set_trace.
    + now rewrite zadds_app, Hz.
    + now rewrite pushes_app, Hpu.
  - rewrite (parse_site_no_parser env site resp w Hp). apply no_forwarding_refl.
Qed.

End Quiet.

(** ** How a page visit can end *)

Section VisitOutcome.

Variable env : Env.

(** Line 98 aside, [crawl_single_page] returns or raises the generic
    retryable failure. *)
Lemma crawl_single_page_try (page : string) (site : SiteData) (proxy : option string)
      (w0 : World) :
  let attempt :=
    try_except
      (text <- get_text env page proxy ;;
       site_resp <- (if String.eqb text ""
                     then raise (EmptyResponseException "empty text")
                     else ret {| text := text; url := page |}) ;;
       parse_site env site site_resp)
      (fun e =>
         do Logger Error "[get] Get page %s error, message: %s"
              [ArgStr page; ArgStr (exn_str e)] ;;
         raise (RetryException (Some e))) in
  attempt w0 =
  match session_get env page proxy w0 with
  | Raise e =>
      (Raise (RetryException (Some e)),
       record (get_error_log page e) (record (EvGet page proxy) w0))
  | Ok text =>
      if String.eqb text ""
      then (Raise (RetryException (Some (EmptyResponseException "empty text"))),
            record (get_error_log page (EmptyResponseException "empty text"))
              (record (EvGet page proxy) w0))
      else (Ok tt, snd (parse_site env site {| text := text; url := page |}
                          (record (EvGet page proxy) w0)))
  end.
Proof.
  cbv zeta. unfold try_except, bind at 1, get_text.
  destruct (session_get env page proxy w0) as [text|e]; [|reflexivity].
  unfold bind at 1. destruct (String.eqb text ""); [reflexivity|].
  unfold ret at 1.
  pose proof (parse_site_never_raises env site {| text := text; url := page |}
                (record (EvGet page proxy) w0)) as Hok.
  destruct (parse_site env site _ _) as [r w1]. cbn [fst snd] in *. now rewrite Hok.
Qed.

(** Lines 96-110 when the proxy selection returned. *)
Lemma crawl_single_page_fetch (page : string) (site : SiteData) (w : World)
      (proxy : option string) (w0 : World) :
  (if use_proxy site
   then IPFactory_get_random_ip env (String.prefix "https" page)
   else ret None) w = (Ok proxy, w0) ->
  crawl_single_page env page site w =
  match session_get env page proxy w0 with
  | Raise e =>
      (Raise (RetryException (Some e)),
       record (get_error_log page e) (record (EvGet page proxy) w0))
  | Ok text =>
      if String.eqb text ""
      then (Raise (RetryException (Some (EmptyResponseException "empty text"))),
            record (get_error_log page (EmptyResponseException "empty text"))
              (record (EvGet page proxy) w0))
      else (Ok tt, snd (parse_site env site {| text := text; url := page |}
                          (record (EvGet page proxy) w0)))
  end.
Proof.
  intros Hstep. unfold crawl_single_page, bind at 1. rewrite Hstep.
  apply crawl_single_page_try.
Qed.

(** Lines 96-100 when the proxy selection raised. *)
Lemma crawl_single_page_no_proxy (page : string) (site : SiteData) (w : World)
      (e : exn) (w0 : World) :
  (if use_proxy site
   then IPFactory_get_random_ip env (String.prefix "https" page)
   else ret None) w = (Raise e, w0) ->
  crawl_single_page env page site w = (Raise e, w0).
Proof.
  intros Hstep. unfold crawl_single_page, bind at 1. now rewrite Hstep.
Qed.

Lemma crawl_single_page_outcome (page : string) (site : SiteData) (w : World) :
  proxy_never_raises env ->
  fst (crawl_single_page env page site w) = Ok tt \/
  exists c, fst (crawl_single_page env page site w) = Raise (RetryException (Some c)).
Proof.
  intros Hproxy.
  assert (Hstep : exists proxy w0,
            (if use_proxy site
             then IPFactory_get_random_ip env (String.prefix "https" page)
             else ret None) w = (Ok proxy, w0)).
  { destruct (use_proxy site); [|now exists None, w].
    unfold IPFactory_get_random_ip.
    destruct (Hproxy (String.prefix "https" page) w) as [o Ho]. rewrite Ho. eauto. }
  destruct Hstep as (proxy & w0 & Hstep).
  rewrite (crawl_single_page_fetch page site w proxy w0 Hstep).
  destruct (session_get env page proxy w0) as [text|e];
    [|right; eexists; reflexivity].
  destruct (String.eqb text ""); [right; eexists; reflexivity|now left].
Qed.

Lemma retry_outcome {St : Type} (op : St -> result unit * St) (budget : nat) :
  (forall s, fst (op s) = Ok tt \/
             exists e, fst (op s) = Raise e /\ retryable e = true) ->
  forall s, fst (retry budget op s) = Ok tt \/
            fst (retry budget op s) = Raise (MaxRetryException "").
Proof.
  intros Hop. induction budget as [|b IH]; intros s; cbn [retry]; [now right|].
  destruct (Hop s) as [Hok|(e & He & Hre)];
    destruct (op s) as [r s1]; cbn [fst] in *; subst r.
  - now left.
  - rewrite Hre. apply IH.
Qed.

Lemma crawl_single_page_retry_outcome (page : string) (site : SiteData) (w : World) :
  proxy_never_raises env ->
  fst (crawl_single_page_retry env page site w) = Ok tt \/
  fst (crawl_single_page_retry env page site w) = Raise (MaxRetryException "").
Proof.
  intros Hproxy. apply retry_outcome. intros s.
  destruct (crawl_single_page_outcome page site s Hproxy) as [Hok|[c Hc]];
    [now left|right]. eauto.
Qed.

Lemma visits_none (t : list event) : pace_view t = [] -> visits t = [].
Proof.
  induction t as [|e t IH]; [reflexivity|].
  unfold pace_view. rewrite filter_cons.
  destruct (decide (is_pacing e = true)) as [|Hne]; [discriminate|].
  intros Ht. change (visits (e :: t)) with (visits ([e] ++ t)).
  rewrite visits_app, (IH Ht), app_nil_r.
  destruct e; try reflexivity. now contradiction Hne.
Qed.

(** What one turn of the page loop adds to the trace. *)
Lemma crawl_page_visits (site : SiteData) (page : string) (w : World) :
  exists t, trace (snd (crawl_page env site page w)) = trace w ++ t /\
            visits t = [page] /\
            same_attrs w (snd (crawl_page env site page w)).
Proof.
  destruct (crawl_page_turn env site page w)
    as (r & wv & body & skip & _ & _ & Hbody & Hskip & _ & Htr & Hattr).
  eexists. split; [exact Htr|]. split; [|exact Hattr].
  change (EvVisit page :: (body ++ skip) ++ ?l) with ([EvVisit page] ++ (body ++ skip) ++ l).
  rewrite !visits_app, (visits_none body Hbody).
  replace (visits skip) with (@nil string) by (subst skip; now destruct r as [|[]]).
  now destruct (page_interval site =? 0)%Z.
Qed.

(** A turn of the page loop never raises the retry-exhausted signal. *)
Lemma crawl_page_not_exhausted (site : SiteData) (page : string) (w : World) (e : exn) :
  fst (crawl_page env site page w) = Raise e -> is_MaxRetryException e = false.
Proof.
  rewrite (crawl_page_eq env site page w).
  destruct (crawl_single_page_retry env page site (record (EvVisit page) w))
    as [[[]|e'] wv]; [discriminate|].
  destruct (is_MaxRetryException e') eqn:He'; [discriminate|].
  cbn [fst]. intros [= ->]. exact He'.
Qed.

Lemma crawl_pages_not_exhausted (site : SiteData) (pgs : list string) (w : World) (e : exn) :
  fst (crawl_pages env site pgs w) = Raise e -> is_MaxRetryException e = false.
Proof.
  revert w. induction pgs as [|p rest IH]; intros w; cbn [crawl_pages].
  - discriminate.
  - unfold bind. pose proof (crawl_page_not_exhausted site p w) as Hp.
    destruct (crawl_page env site p w) as [[[]|e'] w1]; cbn [fst] in *.
    + apply IH.
    + intros [= ->]. now apply Hp.
Qed.

Lemma crawl_sites_not_exhausted (items : list (string * SiteData)) (w : World) (e : exn) :
  fst (crawl_sites env items w) = Raise e -> is_MaxRetryException e = false.
Proof.
  revert w. induction items as [|[k site] rest IH]; intros w; cbn [crawl_sites].
  - discriminate.
  - unfold bind. destruct (enabled site).
    + pose proof (crawl_pages_not_exhausted site (page_slice (pages site) 0) w) as Hs.
      unfold crawl_site.
      destruct (crawl_pages env site _ w) as [[[]|e'] w1]; cbn [fst] in *.
      * apply IH.
      * intros [= ->]. now apply Hs.
    + apply IH.
Qed.

(** With a proxy factory that answers, a turn of the page loop returns. *)
Lemma crawl_page_returns (site : SiteData) (page : string) (w : World) :
  proxy_never_raises env -> fst (crawl_page env site page w) = Ok tt.
Proof.
  intros Hproxy. rewrite (crawl_page_eq env site page w).
  destruct (crawl_single_page_retry_outcome page site (record (EvVisit page) w) Hproxy)
    as [H|H];
    destruct (crawl_single_page_retry env page site (record (EvVisit page) w)) as [r wv];
    cbn [fst] in H; subst r; reflexivity.
Qed.

Lemma crawl_pages_complete (site : SiteData) (pgs : list string) (w : World) :
  proxy_never_raises env ->
  exists t, fst (crawl_pages env site pgs w) = Ok tt /\
            trace (snd (crawl_pages env site pgs w)) = trace w ++ t /\
            visits t = pgs.
Proof.
  intros Hproxy. revert w. induction pgs as [|p rest IH]; intros w.
  - exists []. cbn. now rewrite app_nil_r.
  - cbn [crawl_pages]. unfold bind.
    pose proof (crawl_page_returns site p w Hproxy) as Hok.
    destruct (crawl_page_visits site p w) as (t1 & Ht1 & Hv1 & _).
    destruct (crawl_page env site p w) as [r w1]. cbn [fst snd] in *. subst r.
    destruct (IH w1) as (t2 & Hok2 & Ht2 & Hv2).
    exists (t1 ++ t2). split; [exact Hok2|].
    split; [now rewrite Ht2, Ht1, app_assoc|].
    now rewrite visits_app, Hv1, Hv2.
Qed.

Lemma crawl_sites_complete (items : list (string * SiteData)) (w : World) :
  proxy_never_raises env ->
  exists t, fst (crawl_sites env items w) = Ok tt /\
            trace (snd (crawl_sites env items w)) = trace w ++ t /\
            visits t =
              flat_map (fun kv => if enabled (snd kv)
                                  then page_slice (pages (snd kv)) 0 else []) items.
Proof.
  intros Hproxy. revert w. induction items as [|[k site] rest IH]; intros w.
  - exists []. cbn. now rewrite app_nil_r.
  - cbn [crawl_sites flat_map snd]. unfold bind. destruct (enabled site).
    + unfold crawl_site.
      destruct (crawl_pages_complete site (page_slice (pages site) 0) w Hproxy)
        as (t1 & Hok1 & Ht1 & Hv1).
      destruct (crawl_pages env site _ w) as [r w1]. cbn [fst snd] in *. subst r.
      destruct (IH w1) as (t2 & Hok2 & Ht2 & Hv2).
      exists (t1 ++ t2). split; [exact Hok2|].
      split; [now rewrite Ht2, Ht1, app_assoc|].
      now rewrite visits_app, Hv1, Hv2.
    + unfold ret. destruct (IH w) as (t2 & Hok2 & Ht2 & Hv2).
      exists t2. auto.
Qed.

(** With a proxy factory that answers, a pass returns after visiting every
    page of every enabled source, in order. *)
Lemma start_crawl_complete (w : World) :
  proxy_never_raises env ->
  exists t, fst (start_crawl env w) = Ok tt /\
            trace (snd (start_crawl env w)) = trace w ++ t /\
            visits t = pages_of_pass w.
Proof.
  intros Hproxy. unfold start_crawl, bind, gets.
  apply (crawl_sites_complete (configs w) w Hproxy).
Qed.

End VisitOutcome.

(** ** The single-page fetch *)

(** C3, amended. An exception raised by the GET or the body read, and the
    empty-response failure, are logged and raised again as the generic
    retryable failure with the original as its cause; an exception raised by
    the proxy selection, which comes before the [try], leaves
    [crawl_single_page] as it is. *)
Theorem crawl_single_page_wraps (env : Env) (page : string) (site : SiteData) (w : World) :
  let select :=
    (if use_proxy site
     then IPFactory_get_random_ip env (String.prefix "https" page)
     else ret None) w in
  (forall proxy w0 e,
     select = (Ok proxy, w0) ->
     session_get env page proxy w0 = Raise e ->
     crawl_single_page env page site w =
       (Raise (RetryException (Some e)),
        record (get_error_log page e) (record (EvGet page proxy) w0))) /\
  (forall proxy w0,
     select = (Ok proxy, w0) ->
     session_get env page proxy w0 = Ok "" ->
     crawl_single_page env page site w =
       (Raise (RetryException (Some (EmptyResponseException "empty text"))),
        record (get_error_log page (EmptyResponseException "empty text"))
          (record (EvGet page proxy) w0))) /\
  (forall proxy w0 body,
     select = (Ok proxy, w0) ->
     session_get env page proxy w0 = Ok body -> body <> "" ->
     fst (crawl_single_page env page site w) = Ok tt) /\
  (forall e w0,
     select = (Raise e, w0) ->
     crawl_single_page env page site w = (Raise e, w0)).
Proof.
  cbv zeta. repeat split.
  - intros proxy w0 e Hsel Hget.
    now rewrite (crawl_single_page_fetch env page site w proxy w0 Hsel), Hget.
  - intros proxy w0 Hsel Hget.
    now rewrite (crawl_single_page_fetch env page site w proxy w0 Hsel), Hget.
  - intros proxy w0 body Hsel Hget Hne.
    rewrite (crawl_single_page_fetch env page site w proxy w0 Hsel), Hget.
    apply String.eqb_neq in Hne. now rewrite Hne.
  - intros e w0 Hsel. now apply crawl_single_page_no_proxy.
Qed.

Lemma crawl_single_page_wraps_witness :
  crawl_single_page offline_env "http://s1/p1" site_s1 empty_world =
    (Raise (RetryException (Some (OtherError "TimeoutError" ""))),
     record (get_error_log "http://s1/p1" (OtherError "TimeoutError" ""))
       (record (EvGet "http://s1/p1" None) empty_world)).
Proof.
  apply (proj1 (crawl_single_page_wraps offline_env "http://s1/p1" site_s1 empty_world)
           None empty_world (OtherError "TimeoutError" "")); reflexivity.
Defined.

(** Not every failure of the fetch is wrapped: the proxy factory raises,
    and the exception leaves [crawl_single_page] as it is, before any
    fetch; the retry wrapper lets it through and the crawl of the source
    ends with it. *)
Lemma crawl_single_page_proxy_counterexample :
  fst (crawl_single_page proxy_down_env "https://s2/p1" site_s2 empty_world) =
    Raise (OtherError "ConnectionError" "proxy pool down") /\
  fst (crawl_single_page_retry proxy_down_env "https://s2/p1" site_s2 empty_world) =
    Raise (OtherError "ConnectionError" "proxy pool down") /\
  gets_of (trace (snd (crawl_single_page_retry proxy_down_env "https://s2/p1" site_s2
                         empty_world))) = [] /\
  fst (crawl_site proxy_down_env site_s2 0 empty_world) =
    Raise (OtherError "ConnectionError" "proxy pool down").
Proof. vm_compute. repeat split. Qed.

(** ** Retry exhaustion in the page loop *)

(** C6. When the visit of a page ends with the retry-exhausted signal, the
    turn of the loop logs the skip, paces and returns, and the loop goes on
    with the next page. No crawl of a source and no pass ever ends with that
    signal; with a proxy factory that answers, a pass returns after visiting
    every page of every enabled source. *)
Theorem retry_exhausted_skips_page (env : Env) (site : SiteData) (page : string)
        (rest : list string) (w wv : World) (msg : string) :
  crawl_single_page_retry env page site (record (EvVisit page) w) =
    (Raise (MaxRetryException msg), wv) ->
  let w2 := snd (pacing site
                   (record (EvLog Warn "[get] Max retry skip, message: %s" [ArgStr msg])
                      wv)) in
  crawl_page env site page w = (Ok tt, w2) /\
  crawl_pages env site (page :: rest) w = crawl_pages env site rest w2 /\
  (forall limit w0 e,
     fst (crawl_site env site limit w0) = Raise e -> is_MaxRetryException e = false) /\
  (forall w0 e,
     fst (start_crawl env w0) = Raise e -> is_MaxRetryException e = false) /\
  (proxy_never_raises env ->
   forall w0, exists t,
     fst (start_crawl env w0) = Ok tt /\
     trace (snd (start_crawl env w0)) = trace w0 ++ t /\
     visits t = pages_of_pass w0).
Proof.
  intros Hrun w2.
  assert (Hpage : crawl_page env site page w = (Ok tt, w2)).
  { rewrite (crawl_page_eq env site page w), Hrun. reflexivity. }
  split; [exact Hpage|].
  split; [cbn [crawl_pages]; unfold bind; now rewrite Hpage|].
  split; [intros limit w0 e; apply crawl_pages_not_exhausted|].
  split.
  - intros w0 e. unfold start_crawl, bind, gets. apply crawl_sites_not_exhausted.
  - intros Hproxy w0. now apply start_crawl_complete.
Qed.

Lemma offline_env_proxy_answers : proxy_never_raises offline_env.
Proof. intros https w. now exists None. Qed.

Lemma retry_exhausted_skips_page_witness :
  let wv := snd (crawl_single_page_retry offline_env "http://s1/p1" site_s1
                   (record (EvVisit "http://s1/p1") world_s1)) in
  let w2 := snd (pacing site_s1
                   (record (EvLog Warn "[get] Max retry skip, message: %s" [ArgStr ""])
                      wv)) in
  crawl_page offline_env site_s1 "http://s1/p1" world_s1 = (Ok tt, w2) /\
  crawl_pages offline_env site_s1 ["http://s1/p1"; "http://s1/p2"] world_s1 =
    crawl_pages offline_env site_s1 ["http://s1/p2"] w2 /\
  exists t,
    fst (start_crawl offline_env world_s1) = Ok tt /\
    trace (snd (start_crawl offline_env world_s1)) = trace world_s1 ++ t /\
    visits t = pages_of_pass world_s1.
Proof.
  intros wv w2.
  destruct (retry_exhausted_skips_page offline_env site_s1 "http://s1/p1"
              ["http://s1/p2"] world_s1 wv "") as (H1 & H2 & _ & _ & H5).
  - reflexivity.
  - split; [exact H1|]. split; [exact H2|].
    exact (H5 offline_env_proxy_answers world_s1).
Defined.

(** ** A parser that raises *)

(** C7. When the parser bound to a source raises, as it is called or as its
    result is iterated, [parse_site] returns: the error is logged, no other
    call than to the logger is made, so nothing is inserted and nothing
    forwarded. With every parser broken and a proxy factory that answers, a
    pass still returns after visiting every page of every enabled source,
    and it has inserted and forwarded nothing. *)
Theorem parser_error_contained (env : Env) (site : SiteData) (resp : SiteResponse)
        (w : World) (p : parser) (e : exn) :
  parsers w !! key site = Some p ->
  parser_fails p resp e ->
  (exists logs,
     parse_site env site resp w =
       (Ok tt, set_trace (trace w ++ logs ++ [parse_error_log e]) w) /\
     forallb is_log logs = true /\
     zadds (logs ++ [parse_error_log e]) = [] /\
     pushes (logs ++ [parse_error_log e]) = []) /\
  (forall w0,
     broken_parsers w0 -> proxy_never_raises env ->
     exists t,
       fst (start_crawl env w0) = Ok tt /\
       trace (snd (start_crawl env w0)) = trace w0 ++ t /\
       visits t = pages_of_pass w0 /\
       zadds t = [] /\ pushes t = [] /\
       pool (snd (start_crawl env w0)) = pool w0).
Proof.
  intros Hp Hfail. split.
  - destruct (parser_failure_logged env site resp w p e Hp Hfail) as (logs & Hrun & Hall).
    exists logs. split; [exact Hrun|]. split; [exact Hall|].
    destruct (logs_forward_nothing logs Hall) as [Hz Hpu].
    now rewrite zadds_app, pushes_app, Hz, Hpu.
  - intros w0 Hbroken Hproxy.
    destruct (start_crawl_complete env w0 Hproxy) as (t & Hok & Ht & Hv).
    exists t. do 3 (split; [assumption|]).
    apply (no_forwarding_delta w0 _ t); [|exact Ht].
    apply (quiet_under_start_crawl env broken_parsers broken_parsers_attrs);
      [apply parse_site_broken_quiet|exact Hbroken].
Qed.

Lemma world_raising_broken : broken_parsers world_raising.
Proof.
  intros k p resp Hk. unfold world_raising in Hk. cbn [parsers] in Hk.
  apply lookup_insert_Some in Hk as [[_ <-]|[_ Hk]].
  - eexists. left. reflexivity.
  - rewrite lookup_empty in Hk. discriminate.
Qed.

Lemma quiet_env_proxy_answers : proxy_never_raises quiet_env.
Proof. intros https w. now exists None. Qed.

Lemma parser_error_contained_witness :
  (exists logs,
     parse_site quiet_env site_s1 page_p1 world_raising =
       (Ok tt, set_trace (trace world_raising ++ logs ++
                            [parse_error_log (OtherError "ValueError" "bad html")])
                 world_raising) /\
     forallb is_log logs = true /\
     zadds (logs ++ [parse_error_log (OtherError "ValueError" "bad html")]) = [] /\
     pushes (logs ++ [parse_error_log (OtherError "ValueError" "bad html")]) = []) /\
  (exists t,
     fst (start_crawl quiet_env world_raising) = Ok tt /\
     trace (snd (start_crawl quiet_env world_raising)) = trace world_raising ++ t /\
     visits t = pages_of_pass world_raising /\
     zadds t = [] /\ pushes t = [] /\
     pool (snd (start_crawl quiet_env world_raising)) = pool world_raising).
Proof.
  destruct (parser_error_contained quiet_env site_s1 page_p1 world_raising raising_parser
              (OtherError "ValueError" "bad html")) as [Hlocal Hpass].
  - reflexivity.
  - left. reflexivity.
  - split; [exact Hlocal|].
    exact (Hpass world_raising world_raising_broken quiet_env_proxy_answers).
Defined.

(** C8 at a world with no parser at all. *)
Lemma parse_site_unbound_witness :
  parse_site quiet_env site_s1 page_p1 empty_world = (Ok tt, empty_world) /\
  pool (snd (parse_site quiet_env site_s1 page_p1 empty_world)) = pool empty_world /\
  zadds (trace (snd (parse_site quiet_env site_s1 page_p1 empty_world))) =
    zadds (trace empty_world) /\
  pushes (trace (snd (parse_site quiet_env site_s1 page_p1 empty_world))) =
    pushes (trace empty_world).
Proof.
  apply (parse_site_unbound quiet_env site_s1 page_p1 empty_world). reflexivity.
Defined.

Lemma pacing_after_every_visit_witness :
  exists (t : list event) (visited : list string),
    trace (snd (crawl_site offline_env site_s1 0 world_s1)) = trace world_s1 ++ t /\
    visited `prefix_of` page_slice (pages site_s1) 0 /\
    (fst (crawl_site offline_env site_s1 0 world_s1) = Ok tt ->
     visited = page_slice (pages site_s1) 0) /\
    page_turns (page_interval site_s1) visited t /\
    sleeps t = repeat (page_interval site_s1) (length visited).
Proof.
  apply (pacing_after_every_visit offline_env site_s1 0 world_s1).
  cbn. lia.
Defined.

(** ** Failures of the sink *)



(** ** Test mode *)

Lemma same_attrs_refl (w : World) : same_attrs w w.
Proof. unfold same_attrs. auto. Qed.

Lemma same_attrs_trans (w1 w2 w3 : World) :
  same_attrs w1 w2 -> same_attrs w2 w3 -> same_attrs w1 w3.
Proof. unfold same_attrs. intros (?&?&?) (?&?&?). repeat split; congruence. Qed.

Lemma same_attrs_record (e : event) (w : World) : same_attrs w (record e w).
Proof. unfold same_attrs. auto. Qed.

Lemma same_attrs_set_pool (p : gmap string Z) (w : World) : same_attrs w (set_pool p w).
Proof. unfold same_attrs. auto. Qed.

Section Attributes.

Variable env : Env.

Local Ltac attrs_side :=
  first [ exact same_attrs_refl | exact same_attrs_trans
        | intros; apply same_attrs_record | intros; apply same_attrs_set_pool ].

Lemma attrs_push_to_pool (arg : ips_arg) : respects same_attrs (push_to_pool env arg).
Proof. apply respects_push_to_pool; attrs_side. Qed.

Lemma attrs_save_parse_result (result : iterable) :
  respects same_attrs (save_parse_result env result).
Proof. apply respects_save_parse_result; attrs_side. Qed.

Lemma attrs_show_result (resp : SiteResponse) (result : iterable) :
  respects same_attrs (show_result resp result).
Proof. apply respects_show_result; attrs_side. Qed.

Lemma attrs_parse_site (site : SiteData) (resp : SiteResponse) :
  respects same_attrs (parse_site env site resp).
Proof.
  apply respects_parse_site; try attrs_side.
  intros result w _. apply attrs_save_parse_result.
Qed.

Lemma attrs_crawl_single_page_retry (page : string) (site : SiteData) :
  respects same_attrs (crawl_single_page_retry env page site).
Proof.
  apply respects_crawl_single_page_retry; try attrs_side. exact attrs_parse_site.
Qed.

Lemma attrs_crawl_site (site : SiteData) (page_limit : Z) :
  respects same_attrs (crawl_site env site page_limit).
Proof. apply respects_crawl_site; try attrs_side. exact attrs_parse_site. Qed.

Lemma attrs_start_crawl : respects same_attrs (start_crawl env).
Proof. apply respects_start_crawl; try attrs_side. exact attrs_parse_site. Qed.

Lemma attrs_crawl_task (passes : nat) : respects same_attrs (crawl_task env passes).
Proof. apply respects_crawl_task; try attrs_side. exact attrs_parse_site. Qed.

Lemma attrs_run (passes : nat) : respects same_attrs (run env passes).
Proof.
  unfold run. apply respects_try_except; try attrs_side.
  - apply respects_bind; try attrs_side; [apply attrs_crawl_task|].
    intros _. apply respects_ret; attrs_side.
  - intros e. apply respects_ret; attrs_side.
Qed.

(** [test_crawl] leaves the flag set, however it ends. *)
Lemma test_crawl_sets_flag (k : string) (page_limit : Z) (w : World) :
  test_model (snd (test_crawl env k page_limit w)) = true.
Proof.
  unfold test_crawl. cbn [configs set_test_model].
  destruct (dict_get k (configs w)) as [site|]; [|reflexivity].
  destruct (attrs_crawl_site site page_limit (set_test_model true w)) as [Ht _].
  exact Ht.
Qed.

(** No operation of the engine clears the flag. *)
Lemma perform_keeps_flag (c : call) (w : World) :
  test_model w = true -> test_model (perform env c w) = true.
Proof.
  intros Hon.
  assert (Hkeep : forall w', same_attrs w w' -> test_model w' = true)
    by (intros w' (Ht & _); congruence).
  destruct c; cbn [perform].
  - apply Hkeep, attrs_run.
  - apply Hkeep, attrs_crawl_task.
  - apply Hkeep, attrs_start_crawl.
  - apply Hkeep, attrs_push_to_pool.
  - apply Hkeep, attrs_crawl_site.
  - apply Hkeep, attrs_crawl_single_page_retry.
  - apply test_crawl_sets_flag.
  - apply Hkeep, attrs_parse_site.
  - apply Hkeep, attrs_save_parse_result.
  - apply Hkeep, attrs_show_result.
  - unfold config. now destruct res.
  - exact Hon.
Qed.

(** C9. [test_crawl] sets the flag, however it ends; no operation of the
    engine clears it; and with the flag set, a parse, and any number of
    passes of the polling loop, leave the pool as it was and add no
    insertion and no forwarding call. *)
Theorem test_mode_is_sticky :
  (forall k page_limit w, test_model (snd (test_crawl env k page_limit w)) = true) /\
  (forall c w, test_model w = true -> test_model (perform env c w) = true) /\
  (forall site resp w,
     test_model w = true -> no_forwarding w (snd (parse_site env site resp w))) /\
  (forall passes w,
     test_model w = true -> no_forwarding w (snd (crawl_task env passes w))) /\
  (forall k page_limit passes w,
     no_forwarding (snd (test_crawl env k page_limit w))
       (snd (crawl_task env passes (snd (test_crawl env k page_limit w))))).
Proof.
  assert (Hloop : forall passes w,
            test_model w = true -> no_forwarding w (snd (crawl_task env passes w))).
  { intros passes w Hon.
    apply (quiet_under_crawl_task env in_test_mode in_test_mode_attrs passes);
      [apply parse_site_test_quiet|exact Hon]. }
  split; [exact test_crawl_sets_flag|].
  split; [exact perform_keeps_flag|].
  split; [intros site resp w Hon; now apply (parse_site_test_quiet env site resp w)|].
  split; [exact Hloop|].
  intros k page_limit passes w. apply Hloop, test_crawl_sets_flag.
Qed.

End Attributes.

Lemma test_mode_is_sticky_witness :
  let w := snd (test_crawl quiet_env "s1" 3 world_s1) in
  test_model w = true /\
  test_model (perform quiet_env (CallCrawlTask 2) w) = true /\
  no_forwarding w (snd (parse_site quiet_env site_s1 page_p1 w)) /\
  no_forwarding w (snd (crawl_task quiet_env 2 w)).
Proof.
  intros w.
  destruct (test_mode_is_sticky quiet_env) as (H1 & H2 & H3 & H4 & _).
  assert (Hon : test_model w = true) by apply H1.
  split; [exact Hon|].
  split; [apply H2; exact Hon|].
  split; [apply H3|apply H4]; exact Hon.
Defined.

(** ** The fetch under the retry budget *)

Lemma gets_of_app (t1 t2 : list event) : gets_of (t1 ++ t2) = gets_of t1 ++ gets_of t2.
Proof. apply omap_app. Qed.

(** A page whose fetch fails every time, fetched directly: exactly
    [MAX_RETRY] GETs, then the retry-exhausted signal. *)
Lemma crawl_single_page_retry_exhausts (env : Env) (page : string) (site : SiteData)
      (w : World) :
  use_proxy site = false ->
  (forall proxy w0, exists e, session_get env page proxy w0 = Raise e) ->
  exists w' t,
    crawl_single_page_retry env page site w = (Raise (MaxRetryException ""), w') /\
    trace w' = trace w ++ t /\
    gets_of t = repeat (page, None) (MAX_RETRY env).
Proof.
  intros Hdirect Hfail. unfold crawl_single_page_retry.
  generalize (MAX_RETRY env) as budget. intros budget. revert w.
  induction budget as [|b IH]; intros w.
  - exists w, []. cbn. now rewrite app_nil_r.
  - destruct (Hfail None w) as [e He].
    assert (Hsel : (if use_proxy site
                    then IPFactory_get_random_ip env (String.prefix "https" page)
                    else ret None) w = (Ok None, w)) by now rewrite Hdirect.
    pose proof (crawl_single_page_fetch env page site w None w Hsel) as Hrun.
    rewrite He in Hrun.
    rewrite (retry_again _ b w _ _ Hrun eq_refl).
    destruct (IH (record (get_error_log page e) (record (EvGet page None) w)))
      as (w' & t & Hretry & Ht & Hgets).
    exists w', (EvGet page None :: get_error_log page e :: t).
    split; [exact Hretry|].
    split; [rewrite Ht; cbn; now rewrite <- !app_assoc|].
    change (gets_of (EvGet page None :: get_error_log page e :: t))
      with ((page, @None string) :: gets_of t).
    now rewrite Hgets.
Qed.

(** ** Two runs of the engine *)

(** A first pass finds one address on the first page and forwards it once;
    the second page and a second pass find nothing new. *)
Example first_and_second_pass :
  let w1 := snd (start_crawl quiet_env world_ab) in
  let w2 := snd (start_crawl quiet_env w1) in
  fst (start_crawl quiet_env world_ab) = Ok tt /\
  pushes (trace w1) = [["1.2.3.4:8080"]] /\
  sent_counts (trace w1) = [1%Z; 0%Z] /\
  fst (start_crawl quiet_env w1) = Ok tt /\
  pushes (trace w2) = [["1.2.3.4:8080"]] /\
  sent_counts (trace w2) = [1%Z; 0%Z; 0%Z; 0%Z].
Proof. vm_compute. repeat split. Qed.

(** The second page times out on every attempt: three GETs, the page is
    skipped, what the first page gave is forwarded and the pass goes on to
    the next source. *)
Example timeout_on_second_page :
  let w1 := snd (start_crawl flaky_env world_ab) in
  fst (start_crawl flaky_env world_ab) = Ok tt /\
  gets_of (trace w1) =
    [("http://s1/p1", None); ("http://s1/p2", None); ("http://s1/p2", None);
     ("http://s1/p2", None); ("http://s2/p1", None)] /\
  visits (trace w1) = ["http://s1/p1"; "http://s1/p2"; "http://s2/p1"] /\
  pushes (trace w1) = [["1.2.3.4:8080"]].
Proof. vm_compute. repeat split. Qed.

(** * Further properties of the engine *)

(** ** The page slice and the pages visited *)

(** X1. Line 83: the pages crawled are the first pages of the source, all of
    them for a limit of 0, at most [page_limit] for a positive limit, and all
    but the last [-page_limit] for a negative one. *)
Theorem page_slice_bounds (pgs : list string) (page_limit : Z) :
  page_slice pgs page_limit `prefix_of` pgs /\
  (page_limit = 0%Z -> page_slice pgs page_limit = pgs) /\
  ((0 < page_limit)%Z ->
   length (page_slice pgs page_limit) = Nat.min (Z.to_nat page_limit) (length pgs)) /\
  ((page_limit < 0)%Z ->
   length (page_slice pgs page_limit) = length pgs - Z.to_nat (- page_limit)).
Proof.
  unfold page_slice. split; [|split; [|split]].
  - destruct (page_limit =? 0)%Z; [reflexivity|].
    destruct (0 <? page_limit)%Z; apply prefix_take.
  - intros ->. reflexivity.
  - intros Hpos. destruct (Z.eqb_spec page_limit 0); [lia|].
    destruct (Z.ltb_spec 0 page_limit); [|lia]. apply length_take.
  - intros Hneg. destruct (Z.eqb_spec page_limit 0); [lia|].
    destruct (Z.ltb_spec 0 page_limit); [lia|]. rewrite length_take. lia.
Qed.

Section Visited.

Variable env : Env.

(** The page loop, whatever the collaborators do: the pages visited are the
    first pages of the list, all of them when the loop returns. *)
Lemma crawl_pages_visited (site : SiteData) (pgs : list string) (w : World) :
  exists t,
    trace (snd (crawl_pages env site pgs w)) = trace w ++ t /\
    visits t `prefix_of` pgs /\
    (fst (crawl_pages env site pgs w) = Ok tt -> visits t = pgs).
Proof.
  revert w. induction pgs as [|p rest IH]; intros w.
  - exists []. cbn. rewrite app_nil_r. auto.
  - cbn [crawl_pages]. unfold bind.
    destruct (crawl_page_visits env site p w) as (t1 & Ht1 & Hv1 & _).
    destruct (crawl_page env site p w) as [[[]|e] w1]; cbn [fst snd] in *.
    + destruct (IH w1) as (t2 & Ht2 & Hpre & Hok).
      exists (t1 ++ t2). rewrite visits_app, Hv1.
      split; [now rewrite Ht2, Ht1, app_assoc|].
      split; [now apply prefix_cons|].
      intros H. cbn. now rewrite (Hok H).
    + exists t1. rewrite Hv1.
      split; [exact Ht1|]. split; [apply prefix_cons, prefix_nil|discriminate].
Qed.

Lemma crawl_sites_visited (items : list (string * SiteData)) (w : World) :
  exists t,
    trace (snd (crawl_sites env items w)) = trace w ++ t /\
    visits t `prefix_of`
      flat_map (fun kv => if enabled (snd kv)
                          then page_slice (pages (snd kv)) 0 else []) items /\
    (fst (crawl_sites env items w) = Ok tt ->
     visits t =
       flat_map (fun kv => if enabled (snd kv)
                           then page_slice (pages (snd kv)) 0 else []) items).
Proof.
  revert w. induction items as [|[k site] rest IH]; intros w.
  - exists []. cbn. rewrite app_nil_r. auto.
  - cbn [crawl_sites flat_map snd]. unfold bind. destruct (enabled site).
    + unfold crawl_site.
      destruct (crawl_pages_visited site (page_slice (pages site) 0) w)
        as (t1 & Ht1 & Hpre1 & Hok1).
      destruct (crawl_pages env site _ w) as [[[]|e] w1]; cbn [fst snd] in *.
      * destruct (IH w1) as (t2 & Ht2 & Hpre2 & Hok2).
        exists (t1 ++ t2). rewrite visits_app, (Hok1 eq_refl).
        split; [now rewrite Ht2, Ht1, app_assoc|].
        split; [now apply prefix_app|].
        intros H. now rewrite (Hok2 H).
      * exists t1. split; [exact Ht1|].
        split; [|discriminate].
        destruct Hpre1 as [k1 ->]. rewrite <- app_assoc. now eexists.
    + unfold ret. destruct (IH w) as (t2 & Ht2 & Hpre2 & Hok2).
      exists t2. auto.
Qed.

(** X3. Whatever the collaborators do, the pages visited by a pass are the
    first pages of the enabled sources, taken in the order of the registry
    and of each source; a disabled source is not visited; a pass that
    returns has visited all of them. *)
Theorem start_crawl_visits_in_order (w : World) :
  exists t,
    trace (snd (start_crawl env w)) = trace w ++ t /\
    visits t `prefix_of` pages_of_pass w /\
    (fst (start_crawl env w) = Ok tt -> visits t = pages_of_pass w).
Proof.
  unfold start_crawl, bind, gets. apply (crawl_sites_visited (configs w) w).
Qed.

Lemma crawl_sites_nothing (items : list (string * SiteData)) (w : World) :
  flat_map (fun kv => if enabled (snd kv)
                      then page_slice (pages (snd kv)) 0 else []) items = [] ->
  crawl_sites env items w = (Ok tt, w).
Proof.
  induction items as [|[k site] rest IH]; [reflexivity|].
  cbn [flat_map snd crawl_sites]. intros [Hsite Hrest]%app_eq_nil.
  unfold bind. destruct (enabled site).
  - unfold crawl_site. rewrite Hsite. cbn. now apply IH.
  - cbn. now apply IH.
Qed.

(** X4. A pass over a registry with no page to visit (no source, every
    source disabled, or no page configured) returns without a single call:
    the world is what it was. *)
Theorem start_crawl_nothing_to_visit (w : World) :
  pages_of_pass w = [] -> start_crawl env w = (Ok tt, w).
Proof.
  intros Hnone. unfold start_crawl, bind, gets. now apply crawl_sites_nothing.
Qed.

(** X2. [test_crawl] of a registered source, enabled or not: the flag is
    set, the pages visited are the first pages of the slice cut by
    [page_limit], all of it when the call returns; nothing is inserted into
    the pool and nothing forwarded, whatever the mode was before. For a key
    that is not registered it raises on the missing source, with the flag
    set and no call made. *)
Theorem test_crawl_only_shows (k : string) (page_limit : Z) (w : World) :
  match dict_get k (configs w) with
  | Some site =>
      exists t,
        trace (snd (test_crawl env k page_limit w)) = trace w ++ t /\
        visits t `prefix_of` page_slice (pages site) page_limit /\
        (fst (test_crawl env k page_limit w) = Ok tt ->
         visits t = page_slice (pages site) page_limit) /\
        zadds t = [] /\ pushes t = [] /\
        pool (snd (test_crawl env k page_limit w)) = pool w /\
        test_model (snd (test_crawl env k page_limit w)) = true
  | None =>
      test_crawl env k page_limit w =
        (Raise (OtherError "AttributeError"
                  "'NoneType' object has no attribute 'headers'"),
         set_test_model true w)
  end.
Proof.
  unfold test_crawl. cbn [configs set_test_model].
  destruct (dict_get k (configs w)) as [site|]; [|reflexivity].
  set (w1 := set_test_model true w).
  destruct (crawl_pages_visited site (page_slice (pages site) page_limit) w1)
    as (t & Ht & Hpre & Hok).
  assert (Hquiet : no_forwarding w1 (snd (crawl_site env site page_limit w1))).
  { apply (quiet_under_crawl_site env in_test_mode in_test_mode_attrs site page_limit);
      [apply parse_site_test_quiet|reflexivity]. }
  unfold crawl_site in *.
  exists t. split; [exact Ht|]. split; [exact Hpre|]. split; [exact Hok|].
  destruct (no_forwarding_delta w1 _ t Hquiet Ht) as (Hz & Hp & Hpool).
  split; [exact Hz|]. split; [exact Hp|]. split; [exact Hpool|].
  destruct Hquiet as ((Htm & _) & _). exact Htm.
Qed.

End Visited.

Lemma start_crawl_nothing_to_visit_witness :
  start_crawl quiet_env world_off = (Ok tt, world_off).
Proof. apply (start_crawl_nothing_to_visit quiet_env world_off). reflexivity. Defined.

(** [test_crawl] on a disabled source with four pages and the default limit
    of 3: three pages fetched and shown, nothing saved. *)
Example test_crawl_default_limit :
  let r := test_crawl quiet_env "s3" 3 world_off in
  fst r = Ok tt /\
  visits (trace (snd r)) = ["http://s3/p1"; "http://s3/p2"; "http://s3/p3"] /\
  pool (snd r) = ∅ /\
  pushes (trace (snd r)) = [].
Proof. vm_compute. repeat split. Qed.

(** ** The calls each operation can make *)

Lemma grows_mono (a1 a2 : event -> bool) (w w' : World) :
  (forall e, a1 e = true -> a2 e = true) -> grows a1 w w' -> grows a2 w w'.
Proof.
  intros Himp [Hattr (t & Ht & Hall)]. split; [exact Hattr|].
  exists t. split; [exact Ht|].
  apply forallb_forall. intros e He.
  apply Himp. revert e He. now apply forallb_forall.
Qed.

Lemma sink_events_only (t : list event) :
  forallb sink_event t = true ->
  proxies_of t = [] /\ gets_of t = [] /\ sleeps t = [] /\ visits t = [].
Proof.
  induction t as [|e t IH]; [auto|].
  cbn [forallb]. intros [He Ht]%andb_true_iff.
  destruct (IH Ht) as (Hp & Hg & Hs & Hv).
  unfold proxies_of, gets_of, sleeps, visits in *.
  destruct e; try discriminate; cbn [omap]; auto.
Qed.

Section Calls.

Variable env : Env.
Variable allowed : event -> bool.
Hypothesis allowed_sink : forall e, sink_event e = true -> allowed e = true.

Lemma calls_record (e : event) (w : World) :
  sink_event e = true -> grows allowed w (record e w).
Proof. intros He. now apply grows_record, allowed_sink. Qed.

Lemma calls_Logger lvl fmt args : respects (grows allowed) (Logger lvl fmt args).
Proof. intros w. now apply calls_record. Qed.

Lemma calls_push_loop (ips acc : list string) :
  respects (grows allowed) (push_loop env ips acc).
Proof.
  revert acc. induction ips as [|ip rest IH]; intros acc; cbn [push_loop].
  - apply respects_ret, grows_refl.
  - apply respects_bind; [apply grows_trans| |].
    + intros w. unfold zscore.
      destruct (zscore_fault env ip w); cbn [snd]; now apply calls_record.
    + intros [s|]; [apply IH|].
      apply respects_bind; [apply grows_trans| |intros _; apply IH].
      intros w. unfold zadd.
      destruct (zadd_fault env (DEFAULT_SCORE env) ip w); cbn [snd].
      * now apply calls_record.
      * eapply grows_trans; [apply grows_set_pool|]. now apply calls_record.
Qed.

Lemma calls_push_to_pool (arg : ips_arg) :
  respects (grows allowed) (push_to_pool env arg).
Proof.
  unfold push_to_pool.
  apply respects_bind; [apply grows_trans| |].
  { intros w. unfold redis_share.
    destruct (redis_share_fault env w); cbn [snd]; now apply calls_record. }
  intros _. apply respects_bind; [apply grows_trans|apply calls_push_loop|].
  intros needs. apply respects_bind; [apply grows_trans| |].
  { destruct needs; [apply respects_ret, grows_refl|].
    intros w. unfold IPChecker_push_to_pool.
    destruct (checker_fault env _ w); cbn [snd]; now apply calls_record. }
  intros _. apply respects_bind; [apply grows_trans|apply calls_Logger|].
  intros _. apply respects_ret, grows_refl.
Qed.

Lemma calls_iter_end (result : iterable) : respects (grows allowed) (iter_end result).
Proof.
  unfold iter_end. destruct (then_raises result);
    [apply respects_raise|apply respects_ret]; apply grows_refl.
Qed.

Lemma calls_save_parse_result (result : iterable) :
  respects (grows allowed) (save_parse_result env result).
Proof.
  unfold save_parse_result.
  apply respects_bind; [apply grows_trans|apply calls_iter_end|].
  intros _. destruct (candidates (yields result)); [apply respects_ret, grows_refl|].
  apply respects_bind; [apply grows_trans|apply calls_Logger|].
  intros _. apply respects_bind; [apply grows_trans|apply calls_push_to_pool|].
  intros _. apply respects_ret, grows_refl.
Qed.

Lemma calls_show_items (items : list item) : respects (grows allowed) (show_items items).
Proof.
  induction items as [|[s|] rest IH]; cbn [show_items].
  - apply respects_ret, grows_refl.
  - apply respects_bind; [apply grows_trans|apply calls_Logger|]. intros _. exact IH.
  - exact IH.
Qed.

Lemma calls_show_result (resp : SiteResponse) (result : iterable) :
  respects (grows allowed) (show_result resp result).
Proof.
  unfold show_result.
  apply respects_bind; [apply grows_trans|apply calls_Logger|]. intros _.
  apply respects_bind; [apply grows_trans|apply calls_show_items|]. intros _.
  apply calls_iter_end.
Qed.

Lemma calls_parse_site (site : SiteData) (resp : SiteResponse) :
  respects (grows allowed) (parse_site env site resp).
Proof.
  unfold parse_site.
  apply respects_bind; [apply grows_trans|apply respects_gets, grows_refl|].
  intros [p|]; [|apply respects_ret, grows_refl].
  apply respects_try_except; [apply grows_trans| |intros e; apply calls_Logger].
  apply respects_bind; [apply grows_trans| |].
  { unfold call_parser. destruct (p resp);
      [apply respects_raise|apply respects_ret]; apply grows_refl. }
  intros result. apply respects_bind; [apply grows_trans|apply respects_gets, grows_refl|].
  intros test. destruct (negb test);
    [apply calls_save_parse_result|apply calls_show_result].
Qed.

End Calls.

Section Attempt.

Variable env : Env.

(** One call of the body of [crawl_single_page]: the calls it makes, in
    order, and how it ends. *)
Lemma crawl_single_page_calls (page : string) (site : SiteData) (w : World) :
  let https := String.prefix "https" page in
  let asked := if use_proxy site then [EvRandomIp https] else [] in
  let answer := if use_proxy site then get_random_ip env https w else Ok None in
  same_attrs w (snd (crawl_single_page env page site w)) /\
  match answer with
  | Raise e =>
      crawl_single_page env page site w = (Raise e, set_trace (trace w ++ asked) w)
  | Ok proxy =>
      exists rest,
        trace (snd (crawl_single_page env page site w)) =
          trace w ++ asked ++ EvGet page proxy :: rest /\
        forallb sink_event rest = true /\
        (fst (crawl_single_page env page site w) = Ok tt \/
         exists cause,
           fst (crawl_single_page env page site w) = Raise (RetryException (Some cause)))
  end.
Proof.
  cbv zeta.
  set (https := String.prefix "https" page).
  set (select := (if use_proxy site then IPFactory_get_random_ip env https else ret None) w).
  assert (Hsel : select =
            (if use_proxy site then get_random_ip env https w else Ok None,
             set_trace (trace w ++ (if use_proxy site then [EvRandomIp https] else [])) w)).
  { subst select. destruct (use_proxy site).
    - reflexivity.
    - unfold ret. now rewrite set_trace_same. }
  destruct (if use_proxy site then get_random_ip env https w else Ok None)
    as [proxy|e] eqn:Hanswer.
  2:{ rewrite (crawl_single_page_no_proxy env page site w e _ Hsel).
      split; [|reflexivity]. unfold same_attrs. cbn. auto. }
  set (asked := if use_proxy site then [EvRandomIp https] else []) in *.
  set (w0 := set_trace (trace w ++ asked) w) in *.
  rewrite (crawl_single_page_fetch env page site w proxy w0 Hsel).
  assert (Hw0 : trace (record (EvGet page proxy) w0) = trace w ++ asked ++ [EvGet page proxy])
    by (cbn; now rewrite <- app_assoc).
  destruct (session_get env page proxy w0) as [body|e].
  - destruct (String.eqb body "").
    + split; [unfold same_attrs; cbn; auto|].
      exists [get_error_log page (EmptyResponseException "empty text")].
      split; [cbn; now rewrite <- !app_assoc|]. split; [reflexivity|].
      right. eexists. reflexivity.
    + destruct (calls_parse_site env sink_event (fun e H => H) site
                  {| text := body; url := page |} (record (EvGet page proxy) w0))
        as [Hattr (rest & Hrest & Hall)].
      cbn [fst snd]. split.
      { destruct Hattr as (H1 & H2 & H3). unfold same_attrs. cbn in *. auto. }
      exists rest. split; [|split; [exact Hall|now left]].
      rewrite Hrest, Hw0. now rewrite <- !app_assoc.
  - split; [unfold same_attrs; cbn; auto|].
    exists [get_error_log page e].
    split; [cbn; now rewrite <- !app_assoc|]. split; [reflexivity|].
    right. eexists. reflexivity.
Qed.

End Attempt.

(** ** What a parse and a fetch call *)

Section FetchCalls.

Variable env : Env.

(** X5. [parse_site] always returns, and calls nothing but the logger, the pool
    store and the validation stage: no fetch, no proxy request, no sleep;
    the attributes of the engine stay as they were. *)
Theorem parse_site_always_returns (site : SiteData) (resp : SiteResponse) (w : World) :
  fst (parse_site env site resp w) = Ok tt /\
  same_attrs w (snd (parse_site env site resp w)) /\
  exists t,
    trace (snd (parse_site env site resp w)) = trace w ++ t /\
    forallb sink_event t = true /\
    gets_of t = [] /\ proxies_of t = [] /\ sleeps t = [].
Proof.
  split; [apply parse_site_never_raises|].
  destruct (calls_parse_site env sink_event (fun e H => H) site resp w)
    as [Hattr (t & Ht & Hall)].
  split; [exact Hattr|]. exists t.
  destruct (sink_events_only t Hall) as (Hp & Hg & Hs & _). auto 10.
Qed.

(** X6. One call of the body of [crawl_single_page] asks the proxy factory
    once when the source uses a proxy, telling it whether the page is an
    https one, and never otherwise; it makes one GET, for the page and
    through the proxy it was given (none when the source uses none or the
    factory has none), unless the factory raised; it never sleeps. It ends
    by returning, by the generic retryable failure, or by what the factory
    raised. *)
Theorem crawl_single_page_attempt (page : string) (site : SiteData) (w : World) :
  let https := String.prefix "https" page in
  let answer := if use_proxy site then get_random_ip env https w else Ok None in
  exists t,
    trace (snd (crawl_single_page env page site w)) = trace w ++ t /\
    proxies_of t = (if use_proxy site then [https] else []) /\
    gets_of t = match answer with Ok proxy => [(page, proxy)] | Raise _ => [] end /\
    sleeps t = [] /\
    match answer with
    | Raise e => fst (crawl_single_page env page site w) = Raise e
    | Ok _ =>
        fst (crawl_single_page env page site w) = Ok tt \/
        exists cause,
          fst (crawl_single_page env page site w) = Raise (RetryException (Some cause))
    end.
Proof.
  cbv zeta.
  destruct (crawl_single_page_calls env page site w) as [_ Hcalls]. cbv zeta in Hcalls.
  destruct (use_proxy site).
  - destruct (get_random_ip env (String.prefix "https" page) w) as [proxy|e].
    + destruct Hcalls as (rest & Ht & Hall & Hend).
      destruct (sink_events_only rest Hall) as (Hp & Hg & Hs & _).
      exists ([EvRandomIp (String.prefix "https" page)] ++ [EvGet page proxy] ++ rest).
      split; [exact Ht|].
      unfold proxies_of, gets_of, sleeps in *.
      rewrite !omap_app, Hp, Hg, Hs. cbn. auto.
    + rewrite Hcalls. cbn [fst snd set_trace trace].
      eexists. split; [reflexivity|]. cbn. auto.
  - destruct Hcalls as (rest & Ht & Hall & Hend).
    destruct (sink_events_only rest Hall) as (Hp & Hg & Hs & _).
    exists ([EvGet page None] ++ rest).
    split; [exact Ht|].
    unfold proxies_of, gets_of, sleeps in *.
    rewrite !omap_app, Hp, Hg, Hs. cbn. auto.
Qed.

(** One call of the body under [attempt_ok]. *)
Lemma crawl_single_page_attempt_ok (page : string) (site : SiteData) :
  respects (grows (attempt_ok (use_proxy site) page)) (crawl_single_page env page site).
Proof.
  intros w.
  destruct (crawl_single_page_calls env page site w) as [Hattr Hcalls].
  cbv zeta in Hcalls. split; [exact Hattr|].
  assert (Hrest : forall use rest, forallb sink_event rest = true ->
                                   forallb (attempt_ok use page) rest = true).
  { intros use rest Hall. apply forallb_forall. intros e He.
    assert (Hs : sink_event e = true) by (revert e He; now apply forallb_forall).
    now destruct e. }
  destruct (use_proxy site) eqn:Huse.
  - destruct (get_random_ip env (String.prefix "https" page) w) as [proxy|e].
    + destruct Hcalls as (rest & Ht & Hall & _). eexists. split; [exact Ht|].
      cbn [app forallb attempt_ok orb andb].
      rewrite bool_decide_eq_true_2 by reflexivity. now apply Hrest.
    + rewrite Hcalls. eexists. split; [reflexivity|]. reflexivity.
  - destruct Hcalls as (rest & Ht & Hall & _). eexists. split; [exact Ht|].
    cbn [app forallb attempt_ok orb andb].
    rewrite bool_decide_eq_true_2 by reflexivity. now apply Hrest.
Qed.

(** The page loop under a set of calls that holds the visit marker and the
    logger. *)
Lemma calls_crawl_pages (allowed : event -> bool) (site : SiteData) (pgs : list string) :
  (forall page, allowed (EvVisit page) = true) ->
  (forall lvl fmt args, allowed (EvLog lvl fmt args) = true) ->
  (page_interval site <> 0%Z -> allowed (EvSleep (page_interval site)) = true) ->
  (forall page, page ∈ pgs ->
                respects (grows allowed) (crawl_single_page env page site)) ->
  respects (grows allowed) (crawl_pages env site pgs).
Proof.
  intros Hvisit Hlog Hsleep. induction pgs as [|p rest IH]; intros Hpage.
  - apply respects_ret, grows_refl.
  - cbn [crawl_pages]. apply respects_bind; [apply grows_trans| |].
    + unfold crawl_page. apply respects_try_finally; [apply grows_trans| |].
      * apply respects_try_except; [apply grows_trans| |].
        -- apply respects_bind; [apply grows_trans| |].
           ++ intros w. now apply grows_record.
           ++ intros _. apply respects_retry; [apply grows_refl|apply grows_trans|].
              apply Hpage, elem_of_cons. now left.
        -- intros e. destruct (is_MaxRetryException e).
           ++ intros w. now apply grows_record.
           ++ apply respects_raise, grows_refl.
      * unfold pacing. destruct (Z.eqb_spec (page_interval site) 0).
        -- apply respects_ret, grows_refl.
        -- intros w. now apply grows_record, Hsleep.
    + intros _. apply IH. intros page Hin. apply Hpage, elem_of_cons. now right.
Qed.

(** X7. A crawl of a source fetches nothing but the pages of its slice; when
    the source does not use a proxy, it never asks the proxy factory and
    every GET is a direct one. *)
Theorem crawl_site_fetches_its_pages (site : SiteData) (page_limit : Z) (w : World) :
  exists t,
    trace (snd (crawl_site env site page_limit w)) = trace w ++ t /\
    (forall p proxy, (p, proxy) ∈ gets_of t -> p ∈ page_slice (pages site) page_limit) /\
    (use_proxy site = false ->
     proxies_of t = [] /\ forall p proxy, (p, proxy) ∈ gets_of t -> proxy = None).
Proof.
  set (pgs := page_slice (pages site) page_limit).
  assert (Hrun : grows (fetch_ok (use_proxy site) pgs) w
                   (snd (crawl_site env site page_limit w))).
  { apply calls_crawl_pages; try reflexivity.
    intros page Hin w0.
    apply (grows_mono (attempt_ok (use_proxy site) page));
      [|apply crawl_single_page_attempt_ok].
    intros e He. destruct e; try exact He; try reflexivity.
    cbn [fetch_ok attempt_ok] in *.
    apply andb_true_iff in He as [Hp Hm]. rewrite Hp. cbn [andb].
    apply bool_decide_eq_true_1 in Hm. subst page0.
    now apply bool_decide_eq_true_2. }
  destruct Hrun as [_ (t & Ht & Hall)]. exists t. split; [exact Ht|].
  assert (Hget : forall p proxy, (p, proxy) ∈ gets_of t ->
                                 fetch_ok (use_proxy site) pgs (EvGet p proxy) = true).
  { clear Ht. induction t as [|e t IH]; intros p proxy Hin; [inversion Hin|].
    cbn [forallb] in Hall. apply andb_true_iff in Hall as [He Hall].
    destruct e; try (now apply (IH Hall)).
    change (gets_of (EvGet page proxy0 :: t)) with ((page, proxy0) :: gets_of t) in Hin.
    apply elem_of_cons in Hin as [[= -> ->]|Hin]; [exact He|now apply (IH Hall)]. }
  split.
  - intros p proxy Hin. specialize (Hget p proxy Hin). cbn [fetch_ok] in Hget.
    apply andb_true_iff in Hget as [_ Hm]. now apply bool_decide_eq_true_1 in Hm.
  - intros Huse. rewrite Huse in *. split.
    + clear Ht Hget. induction t as [|e t IH]; [reflexivity|].
      cbn [forallb] in Hall. apply andb_true_iff in Hall as [He Hall].
      destruct e; try discriminate; exact (IH Hall).
    + intros p proxy Hin. specialize (Hget p proxy Hin). cbn [fetch_ok orb] in Hget.
      apply andb_true_iff in Hget as [Hp _]. now destruct proxy.
Qed.

(** X8. With a pacing interval of 0 a crawl of a source never sleeps. *)
Theorem crawl_site_no_pacing (site : SiteData) (page_limit : Z) (w : World) :
  page_interval site = 0%Z ->
  exists t,
    trace (snd (crawl_site env site page_limit w)) = trace w ++ t /\
    sleeps t = [].
Proof.
  intros Hzero.
  assert (Hrun : grows (fun e => negb (is_sleep e)) w
                   (snd (crawl_site env site page_limit w))).
  { apply calls_crawl_pages; try reflexivity; [congruence|].
    intros page _ w0.
    apply (grows_mono (attempt_ok (use_proxy site) page));
      [|apply crawl_single_page_attempt_ok].
    intros e He. now destruct e. }
  destruct Hrun as [_ (t & Ht & Hall)]. exists t. split; [exact Ht|].
  clear Ht. induction t as [|e t IH]; [reflexivity|].
  cbn [forallb] in Hall. apply andb_true_iff in Hall as [He Hall].
  destruct e; try discriminate; exact (IH Hall).
Qed.

End FetchCalls.

Lemma crawl_site_no_pacing_witness :
  exists t,
    trace (snd (crawl_site offline_env site_a 0 world_ab)) = trace world_ab ++ t /\
    sleeps t = [].
Proof. apply (crawl_site_no_pacing offline_env site_a 0 world_ab). reflexivity. Defined.

Lemma crawl_site_fetches_its_pages_witness :
  exists t,
    trace (snd (crawl_site quiet_env site_a 1 world_ab)) = trace world_ab ++ t /\
    (forall p proxy, (p, proxy) ∈ gets_of t -> p ∈ page_slice (pages site_a) 1) /\
    proxies_of t = [] /\
    forall p proxy, (p, proxy) ∈ gets_of t -> proxy = None.
Proof.
  destruct (crawl_site_fetches_its_pages quiet_env site_a 1 world_ab)
    as (t & Ht & Hpages & Hdirect).
  exists t. split; [exact Ht|]. split; [exact Hpages|]. now apply Hdirect.
Defined.

(** ** The pool only grows *)

Lemma pool_extends_same (d : Z) (w w' : World) :
  pool w' = pool w -> pool_extends d w w'.
Proof. intros Hp a. rewrite Hp. destruct (pool w !! a); auto. Qed.

Lemma pool_extends_trans (d : Z) (w1 w2 w3 : World) :
  pool_extends d w1 w2 -> pool_extends d w2 w3 -> pool_extends d w1 w3.
Proof.
  intros H12 H23 a. specialize (H12 a). specialize (H23 a).
  destruct (pool w1 !! a) as [s|].
  - now rewrite H12 in H23.
  - destruct H12 as [H12|H12]; rewrite H12 in H23; auto.
Qed.

Section PoolGrows.

Variable env : Env.

Lemma pool_extends_refl (w : World) : pool_extends (DEFAULT_SCORE env) w w.
Proof. now apply pool_extends_same. Qed.

Lemma pool_extends_record (e : event) (w : World) :
  pool_extends (DEFAULT_SCORE env) w (record e w).
Proof. now apply pool_extends_same. Qed.

Lemma pool_push_loop (ips acc : list string) : respects (pool_extends (DEFAULT_SCORE env)) (push_loop env ips acc).
Proof.
  revert acc. induction ips as [|ip rest IH]; intros acc w; cbn [push_loop].
  - apply pool_extends_refl.
  - unfold bind at 1, zscore.
    destruct (zscore_fault env ip w); [apply pool_extends_record|].
    destruct (pool w !! ip) as [s|] eqn:Hlook.
    + exact (IH acc (record (EvZscore ip) w)).
    + unfold bind at 1, zadd.
      destruct (zadd_fault env (DEFAULT_SCORE env) ip (record (EvZscore ip) w));
        [now apply pool_extends_same|].
      eapply pool_extends_trans; [|apply IH].
      intros a. cbn [pool record set_trace set_pool].
      destruct (decide (a = ip)) as [->|Hne].
      * rewrite Hlook. right. apply lookup_insert_eq.
      * rewrite lookup_insert_ne by auto. destruct (pool w !! a); auto.
Qed.

Lemma pool_push_to_pool (arg : ips_arg) : respects (pool_extends (DEFAULT_SCORE env)) (push_to_pool env arg).
Proof.
  unfold push_to_pool.
  apply respects_bind; [apply pool_extends_trans| |].
  { intros w. unfold redis_share.
    destruct (redis_share_fault env w); apply pool_extends_record. }
  intros _. apply respects_bind; [apply pool_extends_trans|apply pool_push_loop|].
  intros needs. apply respects_bind; [apply pool_extends_trans| |].
  { destruct needs; [apply respects_ret, pool_extends_refl|].
    intros w. unfold IPChecker_push_to_pool.
    destruct (checker_fault env _ w); apply pool_extends_record. }
  intros _. apply respects_bind; [apply pool_extends_trans| |].
  - intros w. apply pool_extends_record.
  - intros _. apply respects_ret, pool_extends_refl.
Qed.

Lemma pool_save_parse_result (result : iterable) :
  respects (pool_extends (DEFAULT_SCORE env)) (save_parse_result env result).
Proof.
  unfold save_parse_result.
  apply respects_bind; [apply pool_extends_trans| |].
  { unfold iter_end. destruct (then_raises result);
      [apply respects_raise|apply respects_ret]; apply pool_extends_refl. }
  intros _. destruct (candidates (yields result)); [apply respects_ret, pool_extends_refl|].
  apply respects_bind; [apply pool_extends_trans| |].
  - intros w. apply pool_extends_record.
  - intros _. apply respects_bind; [apply pool_extends_trans|apply pool_push_to_pool|].
    intros _. apply respects_ret, pool_extends_refl.
Qed.

Lemma pool_parse_site (site : SiteData) (resp : SiteResponse) :
  respects (pool_extends (DEFAULT_SCORE env)) (parse_site env site resp).
Proof.
  apply respects_parse_site.
  - apply pool_extends_refl.
  - apply pool_extends_trans.
  - intros e w _. apply pool_extends_record.
  - intros result w _. apply pool_save_parse_result.
Qed.

Local Ltac pool_side :=
  first [ exact pool_extends_refl | apply pool_extends_trans
        | exact pool_parse_site | intros; apply pool_extends_record ].

Lemma pool_crawl_site (site : SiteData) (page_limit : Z) :
  respects (pool_extends (DEFAULT_SCORE env)) (crawl_site env site page_limit).
Proof. apply respects_crawl_site; pool_side. Qed.

Lemma pool_crawl_task (passes : nat) : respects (pool_extends (DEFAULT_SCORE env)) (crawl_task env passes).
Proof. apply respects_crawl_task; pool_side. Qed.

(** X9. No operation of the engine removes an address from the pool or changes
    the score of one: after any call the pool holds what it held, and what
    it holds besides has the default score. *)
Theorem pool_only_grows (c : call) (w : World) :
  (forall a s, pool w !! a = Some s -> pool (perform env c w) !! a = Some s) /\
  (forall a s, pool (perform env c w) !! a = Some s ->
               pool w !! a = Some s \/
               (pool w !! a = None /\ s = DEFAULT_SCORE env)).
Proof.
  assert (Hext : pool_extends (DEFAULT_SCORE env) w (perform env c w)).
  { destruct c; cbn [perform].
    - unfold run. apply respects_try_except; [apply pool_extends_trans| |].
      + apply respects_bind; [apply pool_extends_trans|apply pool_crawl_task|].
        intros _. apply respects_ret, pool_extends_refl.
      + intros e. apply respects_ret, pool_extends_refl.
    - apply pool_crawl_task.
    - apply respects_start_crawl; pool_side.
    - apply pool_push_to_pool.
    - apply pool_crawl_site.
    - apply respects_crawl_single_page_retry; pool_side.
    - unfold test_crawl. cbn [configs set_test_model].
      destruct (dict_get k (configs w)) as [site|]; [|now apply pool_extends_same].
      exact (pool_crawl_site site page_limit (set_test_model true w)).
    - apply pool_parse_site.
    - apply pool_save_parse_result.
    - apply respects_show_result;
        [apply pool_extends_refl|apply pool_extends_trans|].
      intros e w0 _. apply pool_extends_record.
    - unfold config. destruct res; now apply pool_extends_same.
    - now apply pool_extends_same. }
  split; intros a s Ha; specialize (Hext a).
  - now rewrite Ha in Hext.
  - destruct (pool w !! a) as [s0|].
    + left. congruence.
    + right. destruct Hext as [Hext|Hext]; [congruence|]. split; congruence.
Qed.

End PoolGrows.

Lemma pool_only_grows_witness :
  pool (perform quiet_env (CallStartCrawl) (set_pool (<["9.9.9.9:80" := 3%Z]> ∅) world_s1))
    !! "9.9.9.9:80" = Some 3%Z.
Proof.
  apply (proj1 (pool_only_grows quiet_env CallStartCrawl
                  (set_pool (<["9.9.9.9:80" := 3%Z]> ∅) world_s1))).
  reflexivity.
Defined.

(** ** Saving twice, saving what a parser gave, showing it *)

Section Saving.

Variable env : Env.

(** X10. Submitting the same batch again right after it was saved inserts
    nothing, forwards nothing and leaves the pool as it is. *)
Theorem push_to_pool_idempotent (arg : ips_arg) (w : World) :
  reliable_store env ->
  let w1 := snd (push_to_pool env arg w) in
  exists t w2,
    push_to_pool env arg w1 = (Ok (length (as_list arg)), w2) /\
    trace w2 = trace w1 ++ t /\
    zadds t = [] /\ pushes t = [] /\
    sent_counts t = [0%Z] /\
    pool w2 = pool w1.
Proof.
  intros Hrel w1.
  destruct (push_to_pool_spec env arg w Hrel)
    as (needs1 & t1 & w1' & Hrun1 & _ & _ & Hmem1 & _ & _ & _ & Hpool1).
  assert (Hw1 : w1 = w1') by (subst w1; now rewrite Hrun1). clearbody w1. subst w1'.
  destruct (push_to_pool_spec env arg w1 Hrel)
    as (needs2 & t2 & w2 & Hrun2 & [Ht2 _] & _ & Hmem2 & Hz2 & Hp2 & Hs2 & Hpool2).
  assert (Hnone : needs2 = []).
  { apply elem_of_nil_inv. intros a Hin.
    apply Hmem2 in Hin as [Hin Habs]. rewrite Hpool1 in Habs.
    destruct (decide (a ∈ needs1)) as [|Hnot]; [discriminate|].
    apply Hnot, Hmem1. auto. }
  subst needs2. exists t2, w2. repeat (split; [assumption|]).
  apply map_eq. intros a. rewrite Hpool2. now rewrite decide_False by apply not_elem_of_nil.
Qed.

Lemma candidates_elem (items : list item) (a : string) :
  a ∈ candidates items <-> SiteResponseData a ∈ items.
Proof.
  induction items as [|[s|] rest IH]; cbn [candidates].
  - rewrite !elem_of_nil. tauto.
  - rewrite !elem_of_cons, IH. split; intros [H|H]; auto; left; congruence.
  - rewrite elem_of_cons, IH. split; [auto|]. intros [H|H]; [discriminate|exact H].
Qed.

(** X11. Outside test mode and on a pool store that answers, what a parser
    returned is saved: the addresses of its candidates that the pool did not
    hold are inserted with the default score and forwarded in one call, each
    once; what is not a candidate is ignored. *)
Theorem parse_site_saves_candidates (site : SiteData) (resp : SiteResponse) (w : World)
        (p : parser) (items : list item) :
  parsers w !! key site = Some p ->
  p resp = ParserReturns {| yields := items; then_raises := None |} ->
  test_model w = false ->
  reliable_store env ->
  exists (needs_ip : list string) (t : list event) (w' : World),
    parse_site env site resp w = (Ok tt, w') /\
    trace w' = trace w ++ t /\
    NoDup needs_ip /\
    (forall a, a ∈ needs_ip <-> SiteResponseData a ∈ items /\ pool w !! a = None) /\
    zadds t = map (fun a => (DEFAULT_SCORE env, a)) needs_ip /\
    pushes t = match needs_ip with [] => [] | _ :: _ => [needs_ip] end /\
    (forall a, pool w' !! a =
               if decide (a ∈ needs_ip) then Some (DEFAULT_SCORE env) else pool w !! a).
Proof.
  intros Hp Hres Htest Hrel.
  rewrite (parse_site_bound env site resp w p Hp), Hres, Htest.
  unfold save_parse_result, bind at 1, iter_end. cbn [then_raises yields]. unfold ret at 1.
  destruct (candidates items) as [|a0 ips] eqn:Hcand.
  - exists [], [], w. rewrite app_nil_r.
    split; [reflexivity|]. split; [reflexivity|]. split; [constructor|].
    split; [|auto].
    intros a. rewrite <- candidates_elem, Hcand, elem_of_nil. tauto.
  - set (msg := EvLog Info "[get] Get %d new ip" [ArgInt (Z.of_nat (length (a0 :: ips)))]).
    unfold bind at 1, Logger, emit. fold msg.
    destruct (push_to_pool_spec env (AList (a0 :: ips)) (record msg w) Hrel)
      as (needs & t & w' & Hrun & [Ht _] & Hnd & Hmem & Hz & Hpu & _ & Hpool).
    unfold bind, ret. rewrite Hrun.
    exists needs, (msg :: t), w'.
    split; [reflexivity|].
    split; [rewrite Ht; cbn; now rewrite <- app_assoc|].
    split; [exact Hnd|].
    split; [intros a; rewrite Hmem, <- candidates_elem, Hcand; reflexivity|].
    auto.
Qed.

(** [show_items] logs one line for each candidate, in order. *)
Lemma show_items_exact (items : list item) (w : World) :
  show_items items w =
  (Ok tt, set_trace (trace w ++ map ip_log (candidates items)) w).
Proof.
  revert w. induction items as [|[s|] rest IH]; intros w; cbn [show_items candidates map].
  - now rewrite set_trace_same.
  - unfold bind, Logger, emit. rewrite IH. now rewrite set_trace_record.
  - apply IH.
Qed.

(** X12. In test mode, what a parser returned is shown and nothing else is
    done: the calls added are the line for the URL, one line for each
    candidate in the order the parser gave them, and the error line when the
    iteration raised. *)
Theorem parse_site_shows_candidates (site : SiteData) (resp : SiteResponse) (w : World)
        (p : parser) (result : iterable) :
  parsers w !! key site = Some p ->
  p resp = ParserReturns result ->
  test_model w = true ->
  parse_site env site resp w =
    (Ok tt,
     set_trace (trace w ++ url_log resp :: map ip_log (candidates (yields result)) ++
                  match then_raises result with
                  | Some e => [parse_error_log e]
                  | None => []
                  end) w).
Proof.
  intros Hp Hres Htest.
  rewrite (parse_site_bound env site resp w p Hp), Hres, Htest.
  unfold show_result, bind at 1, Logger, emit. fold (url_log resp).
  unfold bind. rewrite show_items_exact, set_trace_record. unfold iter_end.
  destruct (then_raises result) as [e|]; unfold raise, ret.
  - rewrite record_set_trace. reflexivity.
  - now rewrite app_nil_r.
Qed.

End Saving.

Lemma push_to_pool_idempotent_witness :
  let w1 := snd (push_to_pool quiet_env (AList ["1.2.3.4:8080"; "5.6.7.8:3128"]) empty_world) in
  exists t w2,
    push_to_pool quiet_env (AList ["1.2.3.4:8080"; "5.6.7.8:3128"]) w1 = (Ok 2, w2) /\
    trace w2 = trace w1 ++ t /\
    zadds t = [] /\ pushes t = [] /\
    sent_counts t = [0%Z] /\
    pool w2 = pool w1.
Proof.
  apply (push_to_pool_idempotent quiet_env (AList ["1.2.3.4:8080"; "5.6.7.8:3128"])
           empty_world).
  exact quiet_env_reliable.
Defined.

Lemma parse_site_saves_candidates_witness :
  exists (needs_ip : list string) (t : list event) (w' : World),
    parse_site quiet_env site_s1 page_p1 world_s1 = (Ok tt, w') /\
    trace w' = trace world_s1 ++ t /\
    NoDup needs_ip /\
    (forall a, a ∈ needs_ip <->
       SiteResponseData a ∈ [SiteResponseData "1.2.3.4:8080"; NotData;
                             SiteResponseData "5.6.7.8:3128"] /\
       pool world_s1 !! a = None) /\
    zadds t = map (fun a => (DEFAULT_SCORE quiet_env, a)) needs_ip /\
    pushes t = match needs_ip with [] => [] | _ :: _ => [needs_ip] end /\
    (forall a, pool w' !! a =
               if decide (a ∈ needs_ip) then Some (DEFAULT_SCORE quiet_env)
               else pool world_s1 !! a).
Proof.
  apply (parse_site_saves_candidates quiet_env site_s1 page_p1 world_s1 two_ip_parser);
    [reflexivity|reflexivity|reflexivity|exact quiet_env_reliable].
Defined.

Lemma parse_site_shows_candidates_witness :
  parse_site quiet_env site_s1 page_p1 world_test =
    (Ok tt,
     set_trace (trace world_test ++
                  [url_log page_p1; ip_log "1.2.3.4:8080";
                   parse_error_log (OtherError "IndexError" "list index out of range")])
       world_test).
Proof.
  apply (parse_site_shows_candidates quiet_env site_s1 page_p1 world_test half_parser
           {| yields := [SiteResponseData "1.2.3.4:8080"];
              then_raises := Some (OtherError "IndexError" "list index out of range") |});
    reflexivity.
Defined.

(** ** The polling loop *)

Lemma sleeps_of_app (secs : Z) (t1 t2 : list event) :
  sleeps_of secs (t1 ++ t2) = sleeps_of secs t1 + sleeps_of secs t2.
Proof. unfold sleeps_of. now rewrite sleeps_app, filter_app, length_app. Qed.

Section PollingLoop.

Variable env : Env.

(** Lines 45-50 for one more pass. *)
Lemma crawl_task_pass (more : nat) (w : World) :
  crawl_task env (S more) w =
  match start_crawl env (record (EvLog Debug "[get] crawl task loop" []) w) with
  | (Ok _, w1) =>
      if APP_ENV_is_TEST env then (Ok Stopped, w1)
      else crawl_task env more (record (EvSleep (DEFAULT_CRAWL_SITES_INTERVAL env)) w1)
  | (Raise e, w1) => (Raise e, w1)
  end.
Proof.
  cbn [crawl_task]. unfold bind, Logger, emit.
  destruct (start_crawl env _) as [[[]|e] w1]; [|reflexivity].
  now destruct (APP_ENV_is_TEST env).
Qed.

(** X14. In the test environment the polling loop makes one pass and stops:
    more fuel changes nothing, the loop is never left running, and the pages
    visited are those of one pass, all of them when the loop stops. *)
Theorem crawl_task_single_pass (more : nat) (w : World) :
  APP_ENV_is_TEST env = true ->
  crawl_task env (S more) w = crawl_task env 1 w /\
  fst (crawl_task env (S more) w) <> Ok Running /\
  exists t,
    trace (snd (crawl_task env (S more) w)) = trace w ++ t /\
    visits t `prefix_of` pages_of_pass w /\
    (fst (crawl_task env (S more) w) = Ok Stopped -> visits t = pages_of_pass w).
Proof.
  intros Htest.
  split; [now rewrite !crawl_task_pass, Htest|].
  rewrite crawl_task_pass, Htest.
  set (w0 := record (EvLog Debug "[get] crawl task loop" []) w).
  destruct (crawl_sites_visited env (configs w0) w0) as (t & Ht & Hpre & Hok).
  change (crawl_sites env (configs w0) w0) with (start_crawl env w0) in *.
  destruct (start_crawl env w0) as [[[]|e] w1]; cbn [fst snd] in *.
  - split; [discriminate|].
    exists (EvLog Debug "[get] crawl task loop" [] :: t).
    split; [rewrite Ht; cbn; now rewrite <- app_assoc|].
    split; [exact Hpre|]. intros _. now apply Hok.
  - split; [discriminate|].
    exists (EvLog Debug "[get] crawl task loop" [] :: t).
    split; [rewrite Ht; cbn; now rewrite <- app_assoc|].
    split; [exact Hpre|discriminate].
Qed.

(** In continuous operation the loop never stops by itself. *)
Lemma crawl_task_never_stops (passes : nat) (w : World) :
  APP_ENV_is_TEST env = false -> fst (crawl_task env passes w) <> Ok Stopped.
Proof.
  intros Hlive. revert w. induction passes as [|n IH]; intros w.
  - discriminate.
  - rewrite crawl_task_pass, Hlive.
    destruct (start_crawl env _) as [[[]|e] w1]; [apply IH|discriminate].
Qed.

(** One turn of the loop with a proxy factory that answers: the log, the
    calls of a pass that visits every page, the sleep. *)
Lemma polling_cycle_trace (w0 : World) :
  proxy_never_raises env ->
  exists t,
    fst (start_crawl env (record loop_log w0)) = Ok tt /\
    trace (snd (start_crawl env (record loop_log w0))) = trace w0 ++ loop_log :: t /\
    visits t = pages_of_pass w0 /\
    trace (polling_cycle env w0) =
      trace w0 ++ loop_log :: t ++ [EvSleep (DEFAULT_CRAWL_SITES_INTERVAL env)] /\
    configs (polling_cycle env w0) = configs w0.
Proof.
  intros Hproxy.
  destruct (start_crawl_complete env (record loop_log w0) Hproxy) as (t & Hok & Ht & Hv).
  pose proof (attrs_start_crawl env (record loop_log w0)) as (_ & Hcfg & _).
  exists t. split; [exact Hok|].
  assert (Ht' : trace (snd (start_crawl env (record loop_log w0))) = trace w0 ++ loop_log :: t)
    by (rewrite Ht; cbn; now rewrite <- app_assoc).
  split; [exact Ht'|]. split; [exact Hv|].
  unfold polling_cycle. cbn [record set_trace trace configs].
  split; [rewrite Ht'; now rewrite <- app_assoc|exact Hcfg].
Qed.

Lemma crawl_task_cycles (passes : nat) (w : World) :
  APP_ENV_is_TEST env = false ->
  proxy_never_raises env ->
  crawl_task env passes w = (Ok Running, Nat.iter passes (polling_cycle env) w).
Proof.
  intros Hlive Hproxy. revert w. induction passes as [|n IH]; intros w; [reflexivity|].
  rewrite crawl_task_pass, Hlive, Nat.iter_succ_r.
  destruct (polling_cycle_trace w Hproxy) as (t & Hok & _).
  change (EvLog Debug "[get] crawl task loop" []) with loop_log.
  rewrite <- (IH (polling_cycle env w)). unfold polling_cycle.
  destruct (start_crawl env (record loop_log w)) as [r w1]. cbn [fst snd] in *.
  now subst r.
Qed.

(** X15. In continuous operation the loop never stops by itself: it goes on or
    ends on an exception. A pass that returns is followed at once by one
    sleep of the inter-cycle interval, and then by the next turn of the
    loop; a pass that raises ends the loop, with no sleep. With a proxy
    factory that answers the loop goes on: the world after [passes] turns is
    that of [passes] cycles, each of them the log, the calls of a pass that
    visits every page of every enabled source, and that sleep as its last
    call. *)
Theorem crawl_task_continuous (passes : nat) (w : World) :
  APP_ENV_is_TEST env = false ->
  fst (crawl_task env passes w) <> Ok Stopped /\
  (forall more w0,
     crawl_task env (S more) w0 =
     match start_crawl env (record loop_log w0) with
     | (Ok _, w1) =>
         crawl_task env more (record (EvSleep (DEFAULT_CRAWL_SITES_INTERVAL env)) w1)
     | (Raise e, w1) => (Raise e, w1)
     end) /\
  (proxy_never_raises env ->
   crawl_task env passes w = (Ok Running, Nat.iter passes (polling_cycle env) w) /\
   (forall w0, exists t,
      fst (start_crawl env (record loop_log w0)) = Ok tt /\
      trace (snd (start_crawl env (record loop_log w0))) = trace w0 ++ loop_log :: t /\
      visits t = pages_of_pass w0 /\
      trace (polling_cycle env w0) =
        trace w0 ++ loop_log :: t ++ [EvSleep (DEFAULT_CRAWL_SITES_INTERVAL env)] /\
      configs (polling_cycle env w0) = configs w0) /\
   exists t,
     fst (crawl_task env passes w) = Ok Running /\
     trace (snd (crawl_task env passes w)) = trace w ++ t /\
     visits t = concat (replicate passes (pages_of_pass w)) /\
     passes <= sleeps_of (DEFAULT_CRAWL_SITES_INTERVAL env) t).
Proof.
  intros Hlive. split; [now apply crawl_task_never_stops|].
  split.
  { intros more w0. rewrite crawl_task_pass, Hlive. reflexivity. }
  intros Hproxy.
  split; [now apply crawl_task_cycles|].
  split; [intros w0; now apply polling_cycle_trace|].
  revert w. induction passes as [|n IH]; intros w.
  - exists []. cbn. rewrite app_nil_r. auto with arith.
  - rewrite crawl_task_pass, Hlive.
    set (w0 := record (EvLog Debug "[get] crawl task loop" []) w).
    destruct (start_crawl_complete env w0 Hproxy) as (t1 & Hok1 & Ht1 & Hv1).
    pose proof (attrs_start_crawl env w0) as (_ & Hcfg & _).
    destruct (start_crawl env w0) as [r w1]. cbn [fst snd] in *. subst r.
    set (nap := EvSleep (DEFAULT_CRAWL_SITES_INTERVAL env)).
    destruct (IH (record nap w1)) as (t2 & Hok2 & Ht2 & Hv2 & Hs2).
    exists ([EvLog Debug "[get] crawl task loop" []] ++ t1 ++ [nap] ++ t2).
    split; [exact Hok2|].
    split; [rewrite Ht2; cbn; rewrite Ht1; cbn; now rewrite <- !app_assoc|].
    split.
    + rewrite !visits_app, Hv1, Hv2. cbn.
      unfold pages_of_pass. cbn [configs record set_trace]. now rewrite Hcfg.
    + rewrite !sleeps_of_app.
      assert (Hnap : sleeps_of (DEFAULT_CRAWL_SITES_INTERVAL env) [nap] = 1).
      { unfold sleeps_of, nap. cbn. now rewrite decide_True. }
      rewrite Hnap. lia.
Qed.

End PollingLoop.

Lemma crawl_task_single_pass_witness :
  crawl_task quiet_env 5 world_ab = crawl_task quiet_env 1 world_ab /\
  fst (crawl_task quiet_env 5 world_ab) <> Ok Running.
Proof.
  destruct (crawl_task_single_pass quiet_env 4 world_ab) as (H1 & H2 & _);
    [reflexivity|]. split; [exact H1|exact H2].
Defined.

Lemma live_env_proxy_answers : proxy_never_raises live_env.
Proof. intros https w. now exists None. Qed.

Lemma crawl_task_continuous_witness :
  fst (crawl_task live_env 2 world_ab) <> Ok Stopped /\
  crawl_task live_env 2 world_ab =
    (Ok Running, polling_cycle live_env (polling_cycle live_env world_ab)) /\
  (exists t,
     trace (polling_cycle live_env world_ab) =
       trace world_ab ++ loop_log :: t ++
         [EvSleep (DEFAULT_CRAWL_SITES_INTERVAL live_env)] /\
     visits t = pages_of_pass world_ab) /\
  exists t,
    fst (crawl_task live_env 2 world_ab) = Ok Running /\
    trace (snd (crawl_task live_env 2 world_ab)) = trace world_ab ++ t /\
    visits t = concat (replicate 2 (pages_of_pass world_ab)) /\
    2 <= sleeps_of (DEFAULT_CRAWL_SITES_INTERVAL live_env) t.
Proof.
  destruct (crawl_task_continuous live_env 2 world_ab) as (H1 & _ & H3); [reflexivity|].
  destruct (H3 live_env_proxy_answers) as (Hiter & Hcycle & Hrun).
  split; [exact H1|]. split; [exact Hiter|]. split; [|exact Hrun].
  destruct (Hcycle world_ab) as (t & _ & _ & Hv & Ht & _).
  exists t. split; [exact Ht|exact Hv].
Defined.

(** ** The registries *)

Lemma dict_get_set_eq {V} (k : string) (v : V) (d : list (string * V)) :
  dict_get k (dict_set k v d) = Some v.
Proof.
  induction d as [|[k' v'] rest IH]; cbn [dict_set dict_get].
  - now rewrite String.eqb_refl.
  - destruct (String.eqb k k') eqn:Hk; cbn [dict_get]; rewrite ?String.eqb_refl, ?Hk; auto.
Qed.

Lemma dict_get_set_ne {V} (k k0 : string) (v : V) (d : list (string * V)) :
  k0 <> k -> dict_get k0 (dict_set k v d) = dict_get k0 d.
Proof.
  intros Hne. induction d as [|[k' v'] rest IH]; cbn [dict_set dict_get].
  - apply String.eqb_neq in Hne. now rewrite Hne.
  - destruct (String.eqb_spec k k') as [<-|Hk]; cbn [dict_get].
    + apply String.eqb_neq in Hne. now rewrite Hne.
    + destruct (String.eqb k0 k'); auto.
Qed.

Lemma dict_get_None {V} (k : string) (d : list (string * V)) :
  dict_get k d = None <-> k ∉ map fst d.
Proof.
  induction d as [|[k' v'] rest IH]; cbn [dict_get map fst].
  - split; [intros _; apply not_elem_of_nil|reflexivity].
  - rewrite not_elem_of_cons. destruct (String.eqb_spec k k') as [->|Hk].
    + split; [discriminate|]. intros [H _]. now contradiction H.
    + rewrite IH. tauto.
Qed.

(** [d[k] = v] keeps the keys in place and adds a new one at the end. *)
Lemma dict_set_keys {V} (k : string) (v : V) (d : list (string * V)) :
  map fst (dict_set k v d) =
  match dict_get k d with
  | Some _ => map fst d
  | None => map fst d ++ [k]
  end.
Proof.
  induction d as [|[k' v'] rest IH]; cbn [dict_set dict_get map fst app]; [reflexivity|].
  destruct (String.eqb_spec k k') as [->|Hk]; cbn [map fst]; [reflexivity|].
  rewrite IH. now destruct (dict_get k rest).
Qed.


Lemma reassigned_keys (s' : SiteData) (d : list (string * SiteData)) :
  map fst (reassigned s' d) = map fst d.
Proof.
  unfold reassigned. induction d as [|[k v] rest IH]; [reflexivity|].
  cbn [map fst snd]. rewrite IH. now destruct (Nat.eqb (oid v) (oid s')).
Qed.

Lemma dict_get_reassigned (s' : SiteData) (k : string) (d : list (string * SiteData)) :
  dict_get k (reassigned s' d) =
  match dict_get k d with
  | Some v => Some (if Nat.eqb (oid v) (oid s') then s' else v)
  | None => None
  end.
Proof.
  unfold reassigned. induction d as [|[k' v] rest IH]; [reflexivity|].
  cbn [map fst snd].
  destruct (Nat.eqb (oid v) (oid s')) eqn:Hoid; cbn [dict_get fst snd];
    destruct (String.eqb k k'); rewrite ?Hoid; auto.
Qed.


(** X16. [@IPGet.config(name)] and [@IPGet.parse(name)]: what was registered is
    found again under its name, the source carrying that name as its key
    whatever key it came with. Another name keeps the source it had; when
    that source is the very object now registered, it is bound to the same
    object still and so carries the new key as well. A name already
    registered keeps its place in the order of the registry and a new one
    comes last; nothing else changes. A configuration that is not a
    [SiteData] is refused and leaves the world as it was. *)
Theorem registration_round_trip (name : string) (s : SiteData) (f : parser) (w : World) :
  (let w' := snd (config name (Some s) w) in
   fst (config name (Some s) w) = Ok tt /\
   dict_get name (configs w') = Some (with_key name s) /\
   key (with_key name s) = name /\
   (forall k, k <> name ->
      dict_get k (configs w') =
      match dict_get k (configs w) with
      | Some v => Some (if Nat.eqb (oid v) (oid s) then with_key name s else v)
      | None => None
      end) /\
   map fst (configs w') =
     (if bool_decide (name ∈ map fst (configs w))
      then map fst (configs w) else map fst (configs w) ++ [name]) /\
   pool w' = pool w /\ trace w' = trace w /\
   test_model w' = test_model w /\ parsers w' = parsers w) /\
  (exists e, config name None w = (Raise e, w)) /\
  (let w' := snd (parse name f w) in
   fst (parse name f w) = Ok tt /\
   parsers w' !! name = Some f /\
   (forall k, k <> name -> parsers w' !! k = parsers w !! k) /\
   pool w' = pool w /\ trace w' = trace w /\
   test_model w' = test_model w /\ configs w' = configs w).
Proof.
  split; [|split].
  - cbv zeta. cbn [config fst snd configs pool trace test_model parsers].
    split; [reflexivity|]. split; [apply dict_get_set_eq|]. split; [reflexivity|].
    split.
    { intros k Hk. rewrite dict_get_set_ne by exact Hk.
      exact (dict_get_reassigned (with_key name s) k (configs w)). }
    split; [|auto].
    rewrite dict_set_keys, reassigned_keys, dict_get_reassigned.
    destruct (dict_get name (configs w)) as [s0|] eqn:Hget.
    + rewrite bool_decide_eq_true_2; [reflexivity|].
      destruct (decide (name ∈ map fst (configs w))) as [|Hnot]; [assumption|].
      apply dict_get_None in Hnot. congruence.
    + rewrite bool_decide_eq_false_2; [reflexivity|]. now apply dict_get_None.
  - eexists. reflexivity.
  - cbv zeta. cbn [parse fst snd configs pool trace test_model parsers].
    split; [reflexivity|]. split; [apply lookup_insert_eq|].
    split; [intros k Hk; apply lookup_insert_ne; congruence|auto].
Qed.

(** One object registered under two names: both names are bound to it, and
    it carries the name it was given last. *)
Example one_object_two_names :
  let w := snd (config "b" (Some site_s1) (snd (config "a" (Some site_s1) empty_world))) in
  map fst (configs w) = ["a"; "b"] /\
  (key <$> dict_get "a" (configs w)) = Some "b" /\
  (key <$> dict_get "b" (configs w)) = Some "b".
Proof. vm_compute. repeat split. Qed.

Section Registry.

Variable env : Env.




End Registry.



(** ** The request headers *)

Lemma dict_get_update {V} (k : string) (other d : list (string * V)) :
  NoDup (map fst other) ->
  dict_get k (dict_update other d) =
  match dict_get k other with
  | Some v => Some v
  | None => dict_get k d
  end.
Proof.
  unfold dict_update. revert d.
  induction other as [|[k1 v1] rest IH]; intros d Hnd; [reflexivity|].
  cbn [map fst] in Hnd. apply NoDup_cons in Hnd as [Hnot Hnd].
  cbn [fold_left fst snd dict_get]. rewrite (IH _ Hnd).
  destruct (String.eqb_spec k k1) as [->|Hne].
  - apply dict_get_None in Hnot. rewrite Hnot. apply dict_get_set_eq.
  - rewrite dict_get_set_ne by exact Hne. reflexivity.
Qed.

(** X18. The headers of the session of a source are its own headers, and the
    engine's user agent only when the source sets none. *)
Theorem request_headers_merge (n : nat) (site : SiteData) (k : string) :
  NoDup (map fst (headers site)) ->
  dict_get k (request_headers n site) =
  match dict_get k (headers site) with
  | Some v => Some v
  | None => if String.eqb k "User-Agent" then Some (get_user_agent n) else None
  end.
Proof.
  intros Hnd. unfold request_headers. rewrite (dict_get_update k _ _ Hnd).
  reflexivity.
Qed.

Lemma request_headers_merge_witness :
  dict_get "User-Agent" (request_headers 73 site_ua) = Some "curl/7.64".
Proof.
  apply (request_headers_merge 73 site_ua "User-Agent").
  cbn [headers site_ua map fst].
  apply NoDup_cons. split.
  - intros Hin%list_elem_of_singleton. discriminate.
  - apply NoDup_singleton.
Defined.

Example user_agent_of_draw :
  get_user_agent 73 =
  "Mozilla/5.0 (Macintosh; Intel Mac OS X 10_14_5) AppleWebKit/537.36 (KHTML, like Gecko) Chrome/73.0.3770.80 Safari/537.36" /\
  dict_get "User-Agent" (request_headers 73 site_s1) = Some (get_user_agent 73).
Proof. vm_compute. split; reflexivity. Qed.

(** ** A page without candidates *)

(** X13. Outside test mode, a parser that returns nothing the engine takes for a
    candidate costs no call at all: the pool store is not even asked for a
    connection, nothing is logged and the world is what it was. *)
Theorem parse_site_no_candidates (env : Env) (site : SiteData) (resp : SiteResponse)
        (w : World) (p : parser) (items : list item) :
  parsers w !! key site = Some p ->
  p resp = ParserReturns {| yields := items; then_raises := None |} ->
  (forall a, SiteResponseData a ∉ items) ->
  test_model w = false ->
  parse_site env site resp w = (Ok tt, w).
Proof.
  intros Hp Hres Hnone Htest.
  rewrite (parse_site_bound env site resp w p Hp), Hres, Htest.
  unfold save_parse_result, bind, iter_end, ret. cbn [then_raises yields].
  replace (candidates items) with (@nil string); [reflexivity|].
  symmetry. apply elem_of_nil_inv. intros a Hin. now apply candidates_elem, Hnone in Hin.
Qed.

Lemma parse_site_no_candidates_witness :
  parse_site quiet_env site_s1 page_p1
    (snd (parse "s1" (fun _ => ParserReturns {| yields := [NotData; NotData];
                                                then_raises := None |}) empty_world))
  = (Ok tt,
     snd (parse "s1" (fun _ => ParserReturns {| yields := [NotData; NotData];
                                                then_raises := None |}) empty_world)).
Proof.
  apply (parse_site_no_candidates quiet_env site_s1 page_p1 _
           (fun _ => ParserReturns {| yields := [NotData; NotData]; then_raises := None |})
           [NotData; NotData]); try reflexivity.
  intros a Hin. apply elem_of_cons in Hin as [Hin|Hin]; [discriminate|].
  apply list_elem_of_singleton in Hin. discriminate.
Defined.

(** ** Instances *)

Lemma page_slice_bounds_witness :
  page_slice ["a"; "b"; "c"; "d"] 3 `prefix_of` ["a"; "b"; "c"; "d"] /\
  length (page_slice ["a"; "b"; "c"; "d"] 3) = 3 /\
  length (page_slice ["a"; "b"; "c"; "d"] (-1)) = 3 /\
  page_slice ["a"; "b"; "c"; "d"] 0 = ["a"; "b"; "c"; "d"].
Proof.
  destruct (page_slice_bounds ["a"; "b"; "c"; "d"] 3) as (H1 & _ & H3 & _).
  destruct (page_slice_bounds ["a"; "b"; "c"; "d"] (-1)) as (_ & _ & _ & H4).
  destruct (page_slice_bounds ["a"; "b"; "c"; "d"] 0) as (_ & H2 & _).
  split; [exact H1|]. split; [apply H3; lia|]. split; [apply H4; lia|].
  now apply H2.
Defined.

Lemma start_crawl_visits_in_order_witness :
  exists t,
    trace (snd (start_crawl quiet_env world_ab)) = trace world_ab ++ t /\
    visits t = pages_of_pass world_ab.
Proof.
  destruct (start_crawl_visits_in_order quiet_env world_ab) as (t & Ht & _ & Hok).
  exists t. split; [exact Ht|]. now apply Hok.
Defined.

Lemma test_crawl_only_shows_witness :
  exists t,
    trace (snd (test_crawl quiet_env "s3" 3 world_off)) = trace world_off ++ t /\
    visits t = page_slice (pages site_off) 3 /\
    zadds t = [] /\ pushes t = [] /\
    pool (snd (test_crawl quiet_env "s3" 3 world_off)) = pool world_off /\
    test_model (snd (test_crawl quiet_env "s3" 3 world_off)) = true.
Proof.
  pose proof (test_crawl_only_shows quiet_env "s3" 3 world_off) as H.
  change (dict_get "s3" (configs world_off)) with (Some site_off) in H.
  destruct H as (t & Ht & _ & Hok & Hrest).
  exists t. split; [exact Ht|]. split; [now apply Hok|exact Hrest].
Defined.

Lemma registration_round_trip_witness :
  dict_get "s1" (configs (snd (config "s1" (Some site_a) world_s1)))
    = Some (with_key "s1" site_a) /\
  dict_get "s2" (configs (snd (config "s1" (Some site_a) world_s1))) = Some site_s2 /\
  dict_get "s2" (configs (snd (config "s1" (Some site_s2) world_s1)))
    = Some (with_key "s1" site_s2) /\
  map fst (configs (snd (config "s1" (Some site_a) world_s1))) = ["s1"; "s2"] /\
  parsers (snd (parse "s2" raising_parser world_s1)) !! "s1" = parsers world_s1 !! "s1".
Proof.
  destruct (registration_round_trip "s1" site_a raising_parser world_s1)
    as ((_ & Hget & _ & Hother & Hkeys & _) & _ & _).
  destruct (registration_round_trip "s1" site_s2 raising_parser world_s1)
    as ((_ & _ & _ & Hshared & _) & _ & _).
  destruct (registration_round_trip "s2" site_s2 raising_parser world_s1)
    as (_ & _ & (_ & _ & Hpother & _)).
  split; [exact Hget|].
  split; [exact (Hother "s2" ltac:(discriminate))|].
  split; [exact (Hshared "s2" ltac:(discriminate))|].
  split; [exact Hkeys|]. apply Hpother. discriminate.
Defined.
